(** * Redis k8s charm: the admin credential on the peer relation

    A shallow embedding of [src/charm.py] (class [RedisK8sCharm]) and the
    properties of its credential handling: the leader-elected handler that
    provisions the password, the reader [_get_password], the generator
    [_generate_password], the health check and the two actions.

    Python methods become computations in a state-and-exception monad over
    the part of the Juju model and of the unit that the charm reads or
    writes.  Definitions keep the names of the source. *)

From Stdlib Require Import Ascii.
From stdpp Require Import gmap strings list fin_maps.

Open Scope string_scope.
Open Scope list_scope.

(** ** Constants of [charm.py] *)

Definition REDIS_PORT : Z := 6379.
Definition WAITING_MESSAGE : string := "Waiting for Redis...".
Definition CONFIG_PATH : string := "/etc/redis/".
Definition PEER : string := "redis-peers".
Definition PEER_PASSWORD_KEY : string := "redis-password".

(** The constants of Python's [string] module that the charm uses. *)
Module py_string.
Definition ascii_lowercase : string := "abcdefghijklmnopqrstuvwxyz".
Definition ascii_uppercase : string := "ABCDEFGHIJKLMNOPQRSTUVWXYZ".
Definition ascii_letters : string := ascii_lowercase +:+ ascii_uppercase.
Definition digits : string := "0123456789".
End py_string.

(** ** The world the charm runs in *)

(** Exceptions that can leave a method of the charm. *)
Inductive Exn : Type :=
  | AttributeError   (* attribute access on [None] *)
  | IndexError       (* [secrets.choice] on an empty sequence *)
  | KeyError         (* subscript of a dict with a missing key *)
  | RedisError       (* [redis.exceptions.RedisError] and its subclasses *)
  | RelationDataAccessError.
                     (* [ops.model.RelationDataAccessError], a
                        [RelationDataError]: a databag written by a unit
                        that may not write it *)

(** [ops.model.StatusBase]: a status name with its message. *)
Inductive StatusBase : Type :=
  | ActiveStatus (message : string)
  | WaitingStatus (message : string)
  | BlockedStatus (message : string)
  | MaintenanceStatus (message : string)
  | UnknownStatus.

Inductive LogLevel : Type := DEBUG | INFO.

(** An [ops.model.Relation] object is a handle on a relation of the model:
    its data is looked up in the model at each access, so that two handles
    on the same relation see each other's writes. *)
Record Relation : Type := { relation_name : string }.

(** What all units of the application share: for each established relation
    endpoint the application databag ([relation.data[self.app]]), the
    application status, and the journal of the writes made to application
    databags (endpoint, key, value), oldest first. *)
Record Model : Type := {
  relations : gmap string (gmap string string);
  app_status : StatusBase;
  relation_writes : list (string * string * string);
}.

(** What belongs to one unit: its leadership flag (what [is_leader()]
    answers during the hook), status and workload version, its log, the
    numbers that [secrets.randbelow] hands out (a tape with the outcome of
    each call, and how many calls have been made), the reply of the Redis
    server to [INFO server] for a given password ([None]: the client raises
    a [RedisError]), and the dictionaries given to [event.set_results]. *)
Record Unit : Type := {
  is_leader : bool;
  status : StatusBase;
  workload_version : option string;
  log : list (LogLevel * string);
  entropy : nat → nat;
  drawn : nat;
  redis_server : string → option (gmap string string);
  action_results : list (gmap string string);
}.

Record State : Type := { model : Model; unit : Unit }.

Definition set_model (m : Model) (s : State) : State :=
  {| model := m; unit := unit s |}.
Definition set_unit (u : Unit) (s : State) : State :=
  {| model := model s; unit := u |}.

(** ** The monad of charm code *)

Inductive Outcome (A : Type) : Type :=
  | Returns (a : A) (s : State)
  | Raises (e : Exn) (s : State).
Arguments Returns {A} a s.
Arguments Raises {A} e s.

Definition M (A : Type) : Type := State → Outcome A.

Definition ret {A} (a : A) : M A := fun s => Returns a s.
Definition raise {A} (e : Exn) : M A := fun s => Raises e s.
Definition bind {A B} (c : M A) (k : A → M B) : M B :=
  fun s => match c s with
           | Returns a s' => k a s'
           | Raises e s' => Raises e s'
           end.

Notation "'let*' x ':=' c 'in' k" := (bind c (fun x => k))
  (at level 10, x name, c at level 100, k at level 200).
Notation "c '>>' k" := (bind c (fun _ => k))
  (at level 90, right associativity).

(** [try: body except E: handler], for the exceptions [E] that [catches]
    accepts.  What [body] did to the state before it raised stays done. *)
Definition try_except {A} (body : M A) (catches : Exn → bool) (handler : M A) : M A :=
  fun s => match body s with
           | Returns a s' => Returns a s'
           | Raises e s' => if catches e then handler s' else Raises e s'
           end.

Definition final_state {A} (o : Outcome A) : State :=
  match o with Returns _ s => s | Raises _ s => s end.

(** [[f(x) for x in xs]] with an effectful [f]. *)
Fixpoint comprehension {A B} (f : A → M B) (xs : list A) : M (list B) :=
  match xs with
  | [] => ret []
  | x :: xs' => let* y := f x in let* ys := comprehension f xs' in ret (y :: ys)
  end.

(** ** Operations of the libraries the charm calls *)

(** [self.model.get_relation(name)]: the relation, or [None]. *)
Definition get_relation (name : string) : M (option Relation) :=
  fun s => Returns (match relations (model s) !! name with
                    | Some _ => Some {| relation_name := name |}
                    | None => None
                    end) s.

(** [r.data] on a value of type [Optional[Relation]]. *)
Definition dot_data (r : option Relation) : M Relation :=
  match r with
  | Some rel => ret rel
  | None => raise AttributeError
  end.

(** [rel.data[self.app]], read: the current content of the databag. *)
Definition app_databag (rel : Relation) : M (gmap string string) :=
  fun s => match relations (model s) !! relation_name rel with
           | Some bag => Returns bag s
           | None => Raises KeyError s
           end.

(** [rel.data[self.app][key] = value].  Only the leader may write the
    databag of its application: for any other unit [__setitem__] raises
    and nothing is written.  An empty value removes the key. *)
Definition app_databag_set (rel : Relation) (key value : string) : M () :=
  fun s => match relations (model s) !! relation_name rel with
           | Some bag =>
               if is_leader (unit s) then
                 Returns ()
                   (set_model
                      {| relations :=
                           <[relation_name rel :=
                               if String.eqb value "" then delete key bag
                               else <[key := value]> bag]>
                             (relations (model s));
                         app_status := app_status (model s);
                         relation_writes :=
                           relation_writes (model s)
                             ++ [(relation_name rel, key, value)] |} s)
               else Raises RelationDataAccessError s
           | None => Raises KeyError s
           end.

(** [logger.info(msg)] and [logger.debug(msg)]. *)
Definition logger (level : LogLevel) (msg : string) : M () :=
  fun s => Returns ()
    (set_unit {| is_leader := is_leader (unit s); status := status (unit s);
                 workload_version := workload_version (unit s);
                 log := log (unit s) ++ [(level, msg)];
                 entropy := entropy (unit s); drawn := drawn (unit s);
                 redis_server := redis_server (unit s);
                 action_results := action_results (unit s) |} s).

(** [secrets.randbelow(n)] for [n > 0]: a number of [0 .. n-1] that the
    operating system's entropy source decides.  The tape gives the outcome
    of each call (its entry, brought into the range); how CPython obtains
    the number from random bits is not modelled. *)
Definition randbelow (n : nat) : M nat :=
  fun s => Returns (entropy (unit s) (drawn (unit s)) `mod` n)
    (set_unit {| is_leader := is_leader (unit s); status := status (unit s);
                 workload_version := workload_version (unit s);
                 log := log (unit s);
                 entropy := entropy (unit s); drawn := S (drawn (unit s));
                 redis_server := redis_server (unit s);
                 action_results := action_results (unit s) |} s).

(** [secrets.choice(seq)]: [seq[randbelow(len(seq))]], and [IndexError] on
    an empty sequence. *)
Definition choice (seq : list ascii) : M ascii :=
  match seq with
  | [] => raise IndexError
  | _ => let* i := randbelow (length seq) in
         match seq !! i with
         | Some c => ret c
         | None => raise IndexError
         end
  end.

(** [self.unit.status = st]. *)
Definition set_unit_status (st : StatusBase) : M () :=
  fun s => Returns ()
    (set_unit {| is_leader := is_leader (unit s); status := st;
                 workload_version := workload_version (unit s);
                 log := log (unit s);
                 entropy := entropy (unit s); drawn := drawn (unit s);
                 redis_server := redis_server (unit s);
                 action_results := action_results (unit s) |} s).

(** [self.unit.set_workload_version(version)]. *)
Definition set_workload_version (version : string) : M () :=
  fun s => Returns ()
    (set_unit {| is_leader := is_leader (unit s); status := status (unit s);
                 workload_version := Some version;
                 log := log (unit s);
                 entropy := entropy (unit s); drawn := drawn (unit s);
                 redis_server := redis_server (unit s);
                 action_results := action_results (unit s) |} s).

(** [self.app.status = st]. *)
Definition set_app_status (st : StatusBase) : M () :=
  fun s => Returns ()
    (set_model {| relations := relations (model s); app_status := st;
                  relation_writes := relation_writes (model s) |} s).

(** [self.unit.is_leader()]. *)
Definition unit_is_leader : M bool :=
  fun s => Returns (is_leader (unit s)) s.

(** [Redis(password=pw).info("server")]. *)
Definition redis_info_server (password : string) : M (gmap string string) :=
  fun s => match redis_server (unit s) password with
           | Some info => Returns info s
           | None => Raises RedisError s
           end.

(** [d[key]] on a dict. *)
Definition getitem (d : gmap string string) (key : string) : M string :=
  match d !! key with
  | Some v => ret v
  | None => raise KeyError
  end.

(** [event.set_results(results)]. *)
Definition set_results (results : gmap string string) : M () :=
  fun s => Returns ()
    (set_unit {| is_leader := is_leader (unit s); status := status (unit s);
                 workload_version := workload_version (unit s);
                 log := log (unit s);
                 entropy := entropy (unit s); drawn := drawn (unit s);
                 redis_server := redis_server (unit s);
                 action_results := action_results (unit s) ++ [results] |} s).

(** ["...{}".format(x)] for an [Optional[str]]. *)
Definition format_optional (x : option string) : string :=
  match x with Some v => v | None => "None" end.

(** Python's truth value of a [str]. *)
Definition truthy (x : string) : bool :=
  match x with EmptyString => false | String _ _ => true end.

(** ** The methods of [RedisK8sCharm] *)

(** The property [_peers]. *)
Definition _peers : M (option Relation) := get_relation PEER.

Definition _generate_password : M string :=
  let choices := py_string.ascii_letters +:+ py_string.digits in
  let* chars := comprehension (fun _ : nat => choice (String.list_ascii_of_string choices))
                        (seq 0 16) in
  let password := String.string_of_list_ascii chars in
  ret password.

Definition _get_password : M string :=
  let* peers := _peers in
  let* rel := dot_data peers in
  let* data := app_databag rel in
  ret (default "" (data !! PEER_PASSWORD_KEY)).

(** The body of [_leader_elected] after [redis_password] is bound.  In
    the assignment the right-hand side is evaluated first, then the
    target. *)
Definition _leader_elected_body (redis_password : string) : M () :=
  if negb (truthy redis_password) then
    let* password := _generate_password in
    let* peers := _peers in
    let* rel := dot_data peers in
    app_databag_set rel PEER_PASSWORD_KEY password >>
    let* peers' := _peers in
    let* rel' := dot_data peers' in
    let* data := app_databag rel' in
    logger INFO ("REDIS PASSWORD: " +:+ format_optional (data !! PEER_PASSWORD_KEY))
  else ret ().

Definition _leader_elected : M () :=
  let* redis_password := _get_password in
  _leader_elected_body redis_password.

(** [ops.pebble.Layer], as far as [_redis_layer] fills it. *)
Record Service : Type := {
  override : string;
  service_summary : string;
  command : string;
  startup : string;
  environment : gmap string string;
}.

Record Layer : Type := {
  summary : string;
  description : string;
  services : gmap string Service;
}.

Definition _redis_layer : M Layer :=
  let* password := _get_password in
  ret {| summary := "Redis layer";
         description := "Redis layer";
         services :=
           {[ "redis" :=
                {| override := "replace";
                   service_summary := "Redis service";
                   command := "/usr/local/bin/start-redis.sh redis-server";
                   startup := "enabled";
                   environment := {[ "REDIS_PASSWORD" := password ]} |} ]} |}.

Definition catches_RedisError (e : Exn) : bool :=
  match e with RedisError => true | _ => false end.

Definition _redis_check : M bool :=
  try_except
    (let* password := _get_password in
     let* info := redis_info_server password in
     let* version := getitem info "redis_version" in
     set_unit_status (ActiveStatus "") >>
     set_workload_version version >>
     let* leader := unit_is_leader in
     (if leader then set_app_status (ActiveStatus "") else ret ()) >>
     ret true)
    catches_RedisError
    (set_unit_status (WaitingStatus WAITING_MESSAGE) >>
     let* leader := unit_is_leader in
     (if leader then set_app_status (WaitingStatus WAITING_MESSAGE) else ret ()) >>
     ret false).

Definition _update_status : M () :=
  logger INFO "Beginning update_status" >>
  _redis_check >>
  ret ().

Definition check_service : M () :=
  logger INFO "Beginning check_service" >>
  let results : gmap string string := ∅ in
  let* ok := _redis_check in
  let results :=
    if ok then <["result" := "Service is running"]> results
    else <["result" := "Service is not running"]> results in
  set_results results.

Definition _get_password_action : M () :=
  let* password := _get_password in
  set_results {[ "redis-password" := password ]}.

(** ** Observations on the shared store *)

(** The characters [A-Z], [a-z] and [0-9], by their codes. *)
Definition alphanumeric (c : ascii) : bool :=
  let n := nat_of_ascii c in
  ((48 <=? n)%nat && (n <=? 57)%nat) || ((65 <=? n)%nat && (n <=? 90)%nat)
  || ((97 <=? n)%nat && (n <=? 122)%nat).

(** The sequence [_generate_password] chooses from. *)
Definition alphabet : list ascii :=
  String.list_ascii_of_string (py_string.ascii_letters +:+ py_string.digits).

(** A unit after [n] more calls of [secrets.randbelow]. *)
Definition consume (n : nat) (u : Unit) : Unit :=
  {| is_leader := is_leader u; status := status u;
     workload_version := workload_version u; log := log u;
     entropy := entropy u; drawn := n + drawn u;
     redis_server := redis_server u; action_results := action_results u |}.

(** What the peer databag holds under the password key, if anything. *)
Definition stored_credential (m : Model) : option string :=
  match relations m !! PEER with
  | Some bag => bag !! PEER_PASSWORD_KEY
  | None => None
  end.

(** The state of the group: provisioned when the key holds a non-empty
    value. *)
Inductive Phase : Type := UNPROVISIONED | PROVISIONED.

Definition phase (m : Model) : Phase :=
  match stored_credential m with
  | Some pw => if truthy pw then PROVISIONED else UNPROVISIONED
  | None => UNPROVISIONED
  end.


(** ** Events delivered one after the other

    The units of [us] run the handler [op] in turn, each to its end, on
    the model the previous one left.  The result lists the outcome of each
    run. *)
Fixpoint run_each {A} (op : M A) (m : Model) (us : list Unit) : list (Outcome A) :=
  match us with
  | [] => []
  | u :: us' =>
      let o := op {| model := m; unit := u |} in
      o :: run_each op (model (final_state o)) us'
  end.

Definition leader_elected_run : Model → list Unit → list (Outcome ()) :=
  run_each _leader_elected.

(** The models the run goes through, the initial one first. *)
Definition models_of_run {A} (m : Model) (os : list (Outcome A)) : list Model :=
  m :: map (fun o => model (final_state o)) os.

Definition returned {A} (o : Outcome A) : bool :=
  match o with Returns _ _ => true | Raises _ _ => false end.

(** The model after [value] is written to the password key of the peer
    databag. *)
Definition with_credential (value : string) (m : Model) : Model :=
  {| relations :=
       <[PEER := <[PEER_PASSWORD_KEY := value]> (default ∅ (relations m !! PEER))]>
         (relations m);
     app_status := app_status m;
     relation_writes := relation_writes m ++ [(PEER, PEER_PASSWORD_KEY, value)] |}.

(** The unit after the handler has provisioned [password]. *)
Definition unit_after_provisioning (password : string) (u : Unit) : Unit :=
  {| is_leader := is_leader u; status := status u;
     workload_version := workload_version u;
     log := log u ++ [(INFO, "REDIS PASSWORD: " +:+ password)];
     entropy := entropy u; drawn := 16 + drawn u;
     redis_server := redis_server u; action_results := action_results u |}.

(** The password that [_generate_password] returns in state [s]. *)
Definition generated (s : State) : string :=
  match _generate_password s with
  | Returns password _ => password
  | Raises _ _ => ""
  end.

(** ** Leader-elected handlers of several units, interleaved

    Leadership can move while a handler runs, so the handlers of two units
    may overlap.  A handler meets the shared store twice: when it reads the
    password (the call of [_get_password]) and when it writes it (the body
    of the [if], taken with its log line).  A schedule names, step by step,
    the unit that takes its next step.  The leadership flag of a unit is
    what [is_leader()] answers when its handler writes. *)
Inductive Progress : Type :=
  | NotStarted
  | HasRead (redis_password : string)
  | Finished
  | Failed (e : Exn).

Record Replica : Type := { replica_unit : Unit; progress : Progress }.

Record Group : Type := { shared : Model; replicas : list Replica }.

Definition after {A} (o : Outcome A) (next : A → Progress) : Model * Replica :=
  match o with
  | Returns a s => (model s, {| replica_unit := unit s; progress := next a |})
  | Raises e s => (model s, {| replica_unit := unit s; progress := Failed e |})
  end.

Definition step_replica (m : Model) (r : Replica) : Model * Replica :=
  match progress r with
  | NotStarted =>
      after (_get_password {| model := m; unit := replica_unit r |}) HasRead
  | HasRead redis_password =>
      after (_leader_elected_body redis_password
               {| model := m; unit := replica_unit r |})
            (fun _ => Finished)
  | Finished | Failed _ => (m, r)
  end.

Definition step (g : Group) (i : nat) : Group :=
  match replicas g !! i with
  | Some r =>
      let mr := step_replica (shared g) r in
      {| shared := mr.1; replicas := <[i := mr.2]> (replicas g) |}
  | None => g
  end.

Definition run_schedule (schedule : list nat) (g : Group) : Group :=
  foldl step g schedule.


Definition finished (r : Replica) : bool :=
  match progress r with Finished => true | _ => false end.



(** ** Sample worlds *)

(** A model whose peer relation is established and holds nothing yet, and
    one whose peer relation is not there. *)
Definition peers_joined : Model :=
  {| relations := {[ PEER := ∅ ]};
     app_status := UnknownStatus;
     relation_writes := [] |}.

Definition no_peers : Model :=
  {| relations := ∅; app_status := UnknownStatus; relation_writes := [] |}.

(** A Redis server that answers [INFO server] to one password only. *)
Definition server_with (password version : string) : string → option (gmap string string) :=
  fun given => if String.eqb given password
               then Some {[ "redis_version" := version ]} else None.

Definition sample_unit (tape : nat → nat) (leader : bool)
    (server : string → option (gmap string string)) : Unit :=
  {| is_leader := leader; status := MaintenanceStatus "";
     workload_version := None; log := [];
     entropy := tape; drawn := 0;
     redis_server := server; action_results := [] |}.

Definition unit_a : Unit :=
  sample_unit (fun n => 7 * n + 3) true (server_with "dkryFMT07elszGNU" "7.0.4").

Definition unit_b : Unit :=
  sample_unit (fun n => 11 * n + 5) false (fun _ => None).


(** The number of replicas whose handler has run to its end. *)
Fixpoint count_finished (rs : list Replica) : nat :=
  match rs with
  | [] => 0
  | r :: rs' => (if finished r then 1 else 0) + count_finished rs'
  end.







(** ** The workload container and the hook

    The handlers that touch Pebble run in a larger world: the state above,
    the container [redis] of the unit (the one the charm's
    [redis_pebble_ready] event belongs to), whether the event was deferred,
    and the layers given to [logger.debug].  The relation handlers of the
    library object [RedisProvides] are not part of [charm.py] and are left
    out. *)

Inductive PebbleCall : Type :=
  | AddLayer (label : string) (layer : Layer) (combine : bool)
  | Restart (service : string).

(** [ops.pebble.Plan], as far as the charm reads it. *)
Record Plan : Type := { plan_services : gmap string Service }.

(** The container: whether Pebble answers, its current plan, and the
    calls that changed it, oldest first. *)
Record Container : Type := {
  can_connect : bool;
  plan : Plan;
  pebble_calls : list PebbleCall;
}.

Record Hook : Type := {
  state : State;
  container : Container;
  deferred : bool;
  debug_layers : list (string * Layer);
}.

Inductive HookOutcome (A : Type) : Type :=
  | HookReturns (a : A) (h : Hook)
  | HookRaises (e : Exn) (h : Hook).
Arguments HookReturns {A} a h.
Arguments HookRaises {A} e h.

Definition H (A : Type) : Type := Hook → HookOutcome A.

Definition hook_ret {A} (a : A) : H A := fun h => HookReturns a h.
Definition hook_bind {A B} (c : H A) (k : A → H B) : H B :=
  fun h => match c h with
           | HookReturns a h' => k a h'
           | HookRaises e h' => HookRaises e h'
           end.

Notation "'let!' x ':=' c 'in' k" := (hook_bind c (fun x => k))
  (at level 10, x name, c at level 100, k at level 200).
Notation "c '>>!' k" := (hook_bind c (fun _ => k))
  (at level 90, right associativity).

Definition final_hook {A} (o : HookOutcome A) : Hook :=
  match o with HookReturns _ h => h | HookRaises _ h => h end.

(** Charm code that needs the state only, run inside a hook. *)
Definition lift {A} (c : M A) : H A :=
  fun h => match c (state h) with
           | Returns a s =>
               HookReturns a {| state := s; container := container h;
                                deferred := deferred h;
                                debug_layers := debug_layers h |}
           | Raises e s =>
               HookRaises e {| state := s; container := container h;
                               deferred := deferred h;
                               debug_layers := debug_layers h |}
           end.

Definition set_container (c : Container) (h : Hook) : Hook :=
  {| state := state h; container := c; deferred := deferred h;
     debug_layers := debug_layers h |}.

(** [container.can_connect()]. *)
Definition container_can_connect : H bool :=
  fun h => HookReturns (can_connect (container h)) h.

(** [container.get_plan()]. *)
Definition container_get_plan : H Plan :=
  fun h => HookReturns (plan (container h)) h.

(** How Pebble combines a service of a new layer with the one the plan
    has under the same name: [override: replace] puts the new one in its
    place; otherwise the fields the new one sets win and the environments
    are merged. *)
Definition combine_service (new old : Service) : Service :=
  if String.eqb (override new) "replace" then new
  else
    let pick (a b : string) := if truthy a then a else b in
    {| override := override new;
       service_summary := pick (service_summary new) (service_summary old);
       command := pick (command new) (command old);
       startup := pick (startup new) (startup old);
       environment := environment new ∪ environment old |}.

(** [container.add_layer(label, layer, combine=combine)]. *)
Definition container_add_layer (label : string) (layer : Layer) (combine : bool) : H () :=
  fun h =>
    HookReturns ()
      (set_container
         {| can_connect := can_connect (container h);
            plan := {| plan_services :=
                         union_with (fun new old => Some (combine_service new old))
                           (services layer)
                           (plan_services (plan (container h))) |};
            pebble_calls := pebble_calls (container h)
                              ++ [AddLayer label layer combine] |} h).

(** [container.restart(service)]. *)
Definition container_restart (service : string) : H () :=
  fun h =>
    HookReturns ()
      (set_container
         {| can_connect := can_connect (container h);
            plan := plan (container h);
            pebble_calls := pebble_calls (container h) ++ [Restart service] |} h).

(** [event.defer()]. *)
Definition event_defer : H () :=
  fun h => HookReturns ()
    {| state := state h; container := container h; deferred := true;
       debug_layers := debug_layers h |}.

Definition newline : string := String (ascii_of_nat 10) EmptyString.

(** [logger.debug(fmt.format(layer))]: the text of the layer is not
    modelled, the record keeps the format string and the layer. *)
Definition logger_debug_layer (fmt : string) (layer : Layer) : H () :=
  fun h => HookReturns ()
    {| state := state h; container := container h; deferred := deferred h;
       debug_layers := debug_layers h ++ [(fmt, layer)] |}.

(** [self.unit.status], read. *)
Definition unit_status : M StatusBase :=
  fun s => Returns (status (unit s)) s.

Global Instance Service_eq_dec : EqDecision Service.
Proof. solve_decision. Defined.

Global Instance StatusBase_eq_dec : EqDecision StatusBase.
Proof. solve_decision. Defined.

(** ** The handlers that touch Pebble *)

Definition _update_layer : H () :=
  let! connected := container_can_connect in
  if negb connected then
    lift (set_unit_status (WaitingStatus "Waiting for Pebble in workload container"))
  else
    let! current_layer := container_get_plan in
    let! new_layer := lift _redis_layer in
    (if bool_decide (plan_services current_layer ≠ services new_layer) then
       logger_debug_layer ("About to add_layer with layer_config:" +:+ newline +:+ "{}")
         new_layer >>!
       container_add_layer "redis" new_layer true >>!
       lift (logger INFO "Added updated layer 'redis' to Pebble plan") >>!
       container_restart "redis" >>!
       lift (logger INFO "Restarted redis service")
     else hook_ret ()) >>!
    lift (set_unit_status (ActiveStatus "")).

Definition _redis_pebble_ready : H () := _update_layer.

Definition _config_changed : H () :=
  _update_layer >>!
  let! st := lift unit_status in
  if bool_decide (st ≠ ActiveStatus "") then
    event_defer
  else
    lift _redis_check >>! hook_ret ().

(** The events that [__init__] observes, and the handler of each. *)
Inductive Event : Type :=
  | redis_pebble_ready
  | leader_elected
  | config_changed
  | upgrade_charm
  | update_status
  | check_service_action
  | get_initial_admin_password_action.

Global Instance Event_eq_dec : EqDecision Event.
Proof. solve_decision. Defined.

Definition dispatch (e : Event) : H () :=
  match e with
  | redis_pebble_ready => _redis_pebble_ready
  | leader_elected => lift _leader_elected
  | config_changed => _config_changed
  | upgrade_charm => _config_changed
  | update_status => lift _update_status
  | check_service_action => lift check_service
  | get_initial_admin_password_action => lift _get_password_action
  end.

(** A hook starts with the model as it is, the unit and its container,
    nothing deferred and nothing logged at debug level. *)
Definition start_hook (m : Model) (u : Unit) (c : Container) : Hook :=
  {| state := {| model := m; unit := u |}; container := c;
     deferred := false; debug_layers := [] |}.

(** Events delivered one after the other, each to a unit with its
    container: the hooks they run. *)
Fixpoint run_events (m : Model) (evs : list (Event * Unit * Container))
    : list (HookOutcome ()) :=
  match evs with
  | [] => []
  | (e, u, c) :: evs' =>
      let o := dispatch e (start_hook m u c) in
      o :: run_events (model (state (final_hook o))) evs'
  end.

(** A container whose Pebble is up and has no layer yet, and one whose
    Pebble does not answer. *)
Definition empty_container : Container :=
  {| can_connect := true; plan := {| plan_services := ∅ |}; pebble_calls := [] |}.

Definition unreachable_container : Container :=
  {| can_connect := false; plan := {| plan_services := ∅ |}; pebble_calls := [] |}.

(** ** Observations on hooks *)

(** The layer [_redis_layer] renders for a password. *)
Definition redis_service (password : string) : Service :=
  {| override := "replace";
     service_summary := "Redis service";
     command := "/usr/local/bin/start-redis.sh redis-server";
     startup := "enabled";
     environment := {[ "REDIS_PASSWORD" := password ]} |}.

Definition redis_layer (password : string) : Layer :=
  {| summary := "Redis layer";
     description := "Redis layer";
     services := {[ "redis" := redis_service password ]} |}.

(** The password the consumers of a model see: what the peer databag
    holds under the key, the empty string when it holds nothing. *)
Definition visible_password (m : Model) : string :=
  default "" (stored_credential m).

(** A computation that leaves the relation data alone, however it ends. *)
Definition keeps_relations {A} (c : M A) : Prop :=
  ∀ s, relations (model (final_state (c s))) = relations (model s)
       ∧ relation_writes (model (final_state (c s))) = relation_writes (model s).

Definition hook_keeps_relations {A} (c : H A) : Prop :=
  ∀ h, relations (model (state (final_hook (c h)))) = relations (model (state h))
       ∧ relation_writes (model (state (final_hook (c h))))
           = relation_writes (model (state h)).

(** The unit with another entropy tape. *)
Definition with_entropy (tape : nat → nat) (u : Unit) : Unit :=
  {| is_leader := is_leader u; status := status u;
     workload_version := workload_version u; log := log u;
     entropy := tape; drawn := drawn u;
     redis_server := redis_server u; action_results := action_results u |}.

(** The position of a character in a sequence (the length of the
    sequence when it is not there). *)
Fixpoint index_of (c : ascii) (cs : list ascii) : nat :=
  match cs with
  | [] => 0
  | c' :: cs' => if Ascii.eqb c c' then 0 else S (index_of c cs')
  end.

(** A tape whose entries from position [start] on are the positions of
    the characters of [cs] in the alphabet. *)
Definition tape_for (start : nat) (cs : list ascii) : nat → nat :=
  fun n => index_of (nth (n - start) cs zero) alphabet.

(** * Properties *)

(** ** Running the monad *)

Lemma bind_returns {A B} (c : M A) (k : A → M B) s a s' :
  c s = Returns a s' → bind c k s = k a s'.
Proof. intros H. unfold bind. by rewrite H. Qed.

Lemma bind_raises {A B} (c : M A) (k : A → M B) s e s' :
  c s = Raises e s' → bind c k s = Raises e s'.
Proof. intros H. unfold bind. by rewrite H. Qed.

Lemma state_eta s : {| model := model s; unit := unit s |} = s.
Proof. by destruct s. Qed.

Lemma set_unit_consume_0 s : set_unit (consume 0 (unit s)) s = s.
Proof. by destruct s as [m []]. Qed.

Lemma consume_consume n k u : consume n (consume k u) = consume (n + k) u.
Proof. unfold consume; simpl. f_equal. lia. Qed.

(** ** The generator *)

Lemma choice_returns (seq : list ascii) s :
  seq ≠ [] →
  ∃ c, choice seq s = Returns c (set_unit (consume 1 (unit s)) s) ∧ c ∈ seq.
Proof.
  intros Hne. destruct seq as [|c0 seq']; [done|].
  set (l := c0 :: seq') in *.
  assert (Hlt : entropy (unit s) (drawn (unit s)) `mod` length l < length l)
    by (apply Nat.mod_upper_bound; simpl; lia).
  destruct (lookup_lt_is_Some_2 _ _ Hlt) as [c Hc].
  exists c. split; [|by eapply list_elem_of_lookup_2].
  unfold choice. subst l. cbv beta iota.
  unfold bind, randbelow. rewrite Hc. reflexivity.
Qed.

Lemma comprehension_choice (seq : list ascii) (xs : list nat) s :
  seq ≠ [] →
  ∃ cs, comprehension (fun _ => choice seq) xs s
          = Returns cs (set_unit (consume (length xs) (unit s)) s)
        ∧ length cs = length xs ∧ Forall (λ c, c ∈ seq) cs.
Proof.
  intros Hne. revert s. induction xs as [|x xs IH]; intros s.
  - exists []. simpl. rewrite set_unit_consume_0. by repeat split.
  - destruct (choice_returns seq s Hne) as (c & Hc & Hin).
    destruct (IH (set_unit (consume 1 (unit s)) s)) as (cs & Hcs & Hlen & Hall).
    exists (c :: cs). split; [|split; [simpl; by rewrite Hlen | by constructor]].
    simpl. rewrite (bind_returns _ _ _ _ _ Hc), (bind_returns _ _ _ _ _ Hcs).
    unfold ret, set_unit. simpl. rewrite consume_consume.
    do 3 f_equal. lia.
Qed.

Lemma length_of_joined (cs : list ascii) :
  String.length (String.string_of_list_ascii cs) = length cs.
Proof. induction cs as [|c cs IH]; simpl; congruence. Qed.

Lemma alphabet_alphanumeric : Forall (λ c, alphanumeric c = true) alphabet.
Proof.
  apply Forall_forall. intros c Hc. apply list_elem_of_In in Hc.
  revert c Hc. apply forallb_forall. vm_compute. reflexivity.
Qed.

(** What the helper lemmas below use of the generator: it returns, it
    only draws from the entropy source, and its result has 16 characters. *)
Lemma generate_password_returns (s : State) :
  ∃ password,
    _generate_password s = Returns password (set_unit (consume 16 (unit s)) s)
    ∧ String.length password = 16
    ∧ Forall (λ c, c ∈ alphabet) (String.list_ascii_of_string password).
Proof.
  destruct (comprehension_choice alphabet (seq 0 16) s) as (cs & Hcs & Hlen & Hall);
    [by vm_compute|].
  exists (String.string_of_list_ascii cs). split; [|split].
  - unfold _generate_password. fold alphabet.
    by rewrite (bind_returns _ _ _ _ _ Hcs).
  - by rewrite length_of_joined.
  - by rewrite String.list_ascii_of_string_of_list_ascii.
Qed.

Lemma truthy_length (x : string) : truthy x = true ↔ String.length x ≠ 0.
Proof. destruct x; simpl; split; (done || lia). Qed.

(** C4. Every call of [_generate_password] returns, whatever the state and
    the entropy source, a string of exactly 16 characters, each of them a
    member of the alphabet [ascii_letters + digits], which has 62 distinct
    characters, all of them in [A-Za-z0-9]. *)
Theorem generate_password_shape (s : State) :
  ∃ password s',
    _generate_password s = Returns password s'
    ∧ String.length password = 16
    ∧ length alphabet = 62 ∧ NoDup alphabet
    ∧ Forall (λ c, c ∈ alphabet ∧ alphanumeric c = true)
             (String.list_ascii_of_string password).
Proof.
  destruct (generate_password_returns s) as (pw & Hrun & Hlen & Hall).
  exists pw, (set_unit (consume 16 (unit s)) s).
  split; [done|]. split; [done|]. split; [done|].
  split; [by apply (bool_decide_unpack _); vm_compute|].
  eapply Forall_impl; [exact Hall|]. intros c Hc. split; [done|].
  pose proof alphabet_alphanumeric as Ha.
  rewrite Forall_forall in Ha. by apply Ha.
Qed.

(** ** Reading and provisioning the password *)

Lemma peers_returns s :
  _peers s = Returns (match relations (model s) !! PEER with
                      | Some _ => Some {| relation_name := PEER |}
                      | None => None
                      end) s.
Proof. reflexivity. Qed.

(** [_get_password] in closed form. *)
Lemma get_password_eq s :
  _get_password s =
    match relations (model s) !! PEER with
    | Some bag => Returns (default "" (bag !! PEER_PASSWORD_KEY)) s
    | None => Raises AttributeError s
    end.
Proof.
  unfold _get_password, bind, _peers, get_relation, dot_data, app_databag,
    ret, raise.
  destruct (relations (model s) !! PEER) as [bag|] eqn:Hbag; simpl; [|done].
  by rewrite Hbag.
Qed.

Lemma get_password_stored s bag :
  relations (model s) !! PEER = Some bag →
  _get_password s = Returns (default "" (stored_credential (model s))) s.
Proof.
  intros Hbag. rewrite get_password_eq. unfold stored_credential.
  by rewrite Hbag.
Qed.

Lemma leader_elected_body_truthy redis_password s :
  truthy redis_password = true →
  _leader_elected_body redis_password s = Returns () s.
Proof. intros H. unfold _leader_elected_body. by rewrite H. Qed.

Lemma truthy_eqb (x : string) : truthy x = true → String.eqb x "" = false.
Proof. by destruct x. Qed.

Lemma leader_elected_body_falsy redis_password s bag password s_g :
  truthy redis_password = false →
  relations (model s) !! PEER = Some bag →
  is_leader (unit s) = true →
  _generate_password s = Returns password s_g →
  _leader_elected_body redis_password s
    = Returns () {| model := with_credential password (model s);
                    unit := unit_after_provisioning password (unit s) |}.
Proof.
  intros H Hbag Hl Hgen.
  destruct (generate_password_returns s) as (pw & Hrun & Hlen & _).
  assert (Hpw : String.eqb pw "" = false)
    by (apply truthy_eqb, truthy_length; lia).
  rewrite Hrun in Hgen. injection Hgen as <- <-.
  unfold _leader_elected_body. rewrite H. cbn [negb].
  unfold bind. rewrite Hrun.
  unfold _peers, get_relation. cbn. rewrite Hbag. cbn.
  unfold app_databag_set. cbn. rewrite Hbag, Hl, Hpw. cbn.
  rewrite lookup_insert_eq. cbn. unfold app_databag. cbn.
  rewrite !lookup_insert_eq. cbn.
  unfold logger, with_credential, unit_after_provisioning. cbn.
  rewrite Hbag. reflexivity.
Qed.

(** The write of a unit that is not the leader is refused: the password is
    generated and then dropped. *)
Lemma leader_elected_body_not_leader redis_password s bag :
  truthy redis_password = false →
  relations (model s) !! PEER = Some bag →
  is_leader (unit s) = false →
  _leader_elected_body redis_password s
    = Raises RelationDataAccessError (set_unit (consume 16 (unit s)) s).
Proof.
  intros H Hbag Hl.
  destruct (generate_password_returns s) as (pw & Hrun & _).
  unfold _leader_elected_body. rewrite H. cbn [negb].
  unfold bind. rewrite Hrun.
  unfold _peers, get_relation. cbn. rewrite Hbag. cbn.
  unfold app_databag_set. cbn. by rewrite Hbag, Hl.
Qed.

Lemma stored_with_credential value m :
  stored_credential (with_credential value m) = Some value.
Proof.
  unfold stored_credential, with_credential. simpl.
  by rewrite !lookup_insert_eq.
Qed.

Lemma peers_with_credential value m :
  is_Some (relations (with_credential value m) !! PEER).
Proof. unfold with_credential. simpl. rewrite lookup_insert_eq. by eexists. Qed.


Lemma generated_shape s :
  _generate_password s = Returns (generated s) (set_unit (consume 16 (unit s)) s)
  ∧ String.length (generated s) = 16.
Proof.
  destruct (generate_password_returns s) as (pw & Hrun & Hlen & _).
  unfold generated. by rewrite Hrun.
Qed.

Lemma generated_truthy s : truthy (generated s) = true.
Proof.
  apply truthy_length. destruct (generated_shape s) as [_ ->]. lia.
Qed.

(** [_leader_elected] in closed form. *)
Lemma leader_elected_eq s :
  _leader_elected s =
    match relations (model s) !! PEER with
    | None => Raises AttributeError s
    | Some bag =>
        if truthy (default "" (bag !! PEER_PASSWORD_KEY)) then Returns () s
        else if is_leader (unit s) then
          Returns () {| model := with_credential (generated s) (model s);
                        unit := unit_after_provisioning (generated s) (unit s) |}
        else Raises RelationDataAccessError (set_unit (consume 16 (unit s)) s)
    end.
Proof.
  unfold _leader_elected, bind. rewrite get_password_eq.
  destruct (relations (model s) !! PEER) as [bag|] eqn:Hbag; [|done].
  destruct (truthy (default "" (bag !! PEER_PASSWORD_KEY))) eqn:Ht.
  - by apply leader_elected_body_truthy.
  - destruct (is_leader (unit s)) eqn:Hl.
    + eapply leader_elected_body_falsy; [done..|]. apply generated_shape.
    + by eapply leader_elected_body_not_leader.
Qed.

Lemma phase_provisioned m :
  phase m = PROVISIONED ↔ truthy (default "" (stored_credential m)) = true.
Proof.
  unfold phase. destruct (stored_credential m) as [pw|]; simpl; [|done].
  by destruct (truthy pw).
Qed.

Lemma phase_unprovisioned m :
  phase m = UNPROVISIONED ↔ truthy (default "" (stored_credential m)) = false.
Proof.
  unfold phase. destruct (stored_credential m) as [pw|]; simpl; [|done].
  by destruct (truthy pw).
Qed.

(** The handler by the phase of the group, when the peer relation is
    there. *)
Lemma leader_elected_provisioned m u :
  phase m = PROVISIONED →
  _leader_elected {| model := m; unit := u |} = Returns () {| model := m; unit := u |}.
Proof.
  intros Hp. apply phase_provisioned in Hp. rewrite leader_elected_eq.
  unfold stored_credential in Hp. simpl.
  destruct (relations m !! PEER) as [bag|]; [|done]. by rewrite Hp.
Qed.

Lemma leader_elected_unprovisioned m u :
  is_Some (relations m !! PEER) →
  phase m = UNPROVISIONED →
  is_leader u = true →
  let s := {| model := m; unit := u |} in
  _leader_elected s
    = Returns () {| model := with_credential (generated s) m;
                    unit := unit_after_provisioning (generated s) u |}.
Proof.
  intros [bag Hbag] Hp Hl s. apply phase_unprovisioned in Hp.
  rewrite leader_elected_eq. unfold stored_credential in Hp. subst s. simpl.
  rewrite Hbag in *. by rewrite Hp, Hl.
Qed.

(** A unit that is not the leader cannot provision: its write is refused
    and the model stays as it is. *)
Lemma leader_elected_not_leader m u :
  is_Some (relations m !! PEER) →
  phase m = UNPROVISIONED →
  is_leader u = false →
  _leader_elected {| model := m; unit := u |}
    = Raises RelationDataAccessError {| model := m; unit := consume 16 u |}.
Proof.
  intros [bag Hbag] Hp Hl. apply phase_unprovisioned in Hp.
  rewrite leader_elected_eq. unfold stored_credential in Hp. simpl.
  rewrite Hbag in *. by rewrite Hp, Hl.
Qed.

Lemma phase_with_credential s m :
  phase (with_credential (generated s) m) = PROVISIONED.
Proof.
  apply phase_provisioned. rewrite stored_with_credential. simpl.
  apply generated_truthy.
Qed.

(** A handler that returns leaves the group provisioned. *)
Lemma leader_elected_leaves_provisioned s s1 :
  _leader_elected s = Returns () s1 →
  is_Some (relations (model s1) !! PEER) ∧ phase (model s1) = PROVISIONED.
Proof.
  rewrite leader_elected_eq.
  destruct (relations (model s) !! PEER) as [bag|] eqn:Hbag; [|done].
  destruct (truthy (default "" (bag !! PEER_PASSWORD_KEY))) eqn:Ht;
    [|destruct (is_leader (unit s)); [|done]];
    intros [= <-]; simpl.
  - split; [by rewrite Hbag|]. apply phase_provisioned.
    unfold stored_credential. by rewrite Hbag.
  - split; [apply peers_with_credential | apply phase_with_credential].
Qed.

(** ** The claims on single calls *)

(** C5. In every state whose peer databag exists and has no entry under the
    password key, [_get_password] returns the empty string and does not
    raise. *)
Theorem get_password_before_provisioning (s : State) :
  is_Some (relations (model s) !! PEER) →
  stored_credential (model s) = None →
  _get_password s = Returns "" s.
Proof.
  intros [bag Hbag] Hnone. rewrite (get_password_stored s bag Hbag).
  by rewrite Hnone.
Qed.

Lemma get_password_before_provisioning_witness :
  _get_password {| model := peers_joined; unit := unit_b |}
    = Returns "" {| model := peers_joined; unit := unit_b |}.
Proof.
  apply (get_password_before_provisioning
           {| model := peers_joined; unit := unit_b |}).
  - vm_compute. by eexists.
  - vm_compute. reflexivity.
Defined.

(** C7. [_get_password] is a read: whatever the state, and whether it
    returns or raises, the state after it is the state before it (model,
    journal of writes, status, log, entropy and action results alike); and
    its outcome is the same for any unit, leader or not, that calls it on
    the same model. *)
Theorem get_password_is_a_read (s : State) :
  final_state (_get_password s) = s
  ∧ ∀ u : Unit,
      match _get_password s, _get_password {| model := model s; unit := u |} with
      | Returns a _, Returns b _ => a = b
      | Raises e _, Raises e' _ => e = e'
      | _, _ => False
      end.
Proof.
  split.
  - rewrite get_password_eq. by destruct (relations (model s) !! PEER).
  - intros u. rewrite !get_password_eq. simpl.
    by destruct (relations (model s) !! PEER).
Qed.

Lemma redis_check_no_peers s :
  relations (model s) !! PEER = None →
  _redis_check s = Raises AttributeError s.
Proof.
  intros Hnone. unfold _redis_check, try_except, bind.
  rewrite get_password_eq, Hnone. reflexivity.
Qed.

(** C9. When the model has no peer relation, [_peers] returns [None] and
    each operation that reads the password dereferences it: the reader,
    the leader-elected handler, the get-initial-admin-password action and
    the layer renderer all raise [AttributeError], none returns an empty
    value, and neither does the health check, whose [except] clause does
    not catch it. *)
Theorem no_peer_relation_raises (s : State) :
  relations (model s) !! PEER = None →
  _peers s = Returns None s
  ∧ _get_password s = Raises AttributeError s
  ∧ _leader_elected s = Raises AttributeError s
  ∧ _get_password_action s = Raises AttributeError s
  ∧ _redis_layer s = Raises AttributeError s
  ∧ _redis_check s = Raises AttributeError s.
Proof.
  intros Hnone.
  assert (Hget : _get_password s = Raises AttributeError s)
    by (by rewrite get_password_eq, Hnone).
  repeat split.
  - by rewrite peers_returns, Hnone.
  - done.
  - by rewrite leader_elected_eq, Hnone.
  - unfold _get_password_action. by rewrite (bind_raises _ _ _ _ _ Hget).
  - unfold _redis_layer. by rewrite (bind_raises _ _ _ _ _ Hget).
  - by apply redis_check_no_peers.
Qed.

Lemma no_peer_relation_raises_witness :
  let s := {| model := no_peers; unit := unit_a |} in
  _peers s = Returns None s
  ∧ _get_password s = Raises AttributeError s
  ∧ _leader_elected s = Raises AttributeError s
  ∧ _get_password_action s = Raises AttributeError s
  ∧ _redis_layer s = Raises AttributeError s
  ∧ _redis_check s = Raises AttributeError s.
Proof.
  apply (no_peer_relation_raises {| model := no_peers; unit := unit_a |}).
  vm_compute. reflexivity.
Defined.

(** C2. When the read of the password returns a non-empty value, and in
    particular when the model is the one an earlier handler left on
    returning, [_leader_elected] returns in the state it started from: no
    write to the store, no draw from the entropy source, no log line. *)
Theorem leader_elected_idempotent (s : State) :
  (∃ redis_password, _get_password s = Returns redis_password s
                     ∧ truthy redis_password = true)
  ∨ (∃ s0 s1, _leader_elected s0 = Returns () s1 ∧ model s = model s1) →
  _leader_elected s = Returns () s
  ∧ relation_writes (model (final_state (_leader_elected s)))
      = relation_writes (model s).
Proof.
  intros H.
  assert (Hp : phase (model s) = PROVISIONED).
  { destruct H as [(pw & Hget & Ht) | (s0 & s1 & Hrun & ->)].
    - apply phase_provisioned. rewrite get_password_eq in Hget.
      unfold stored_credential.
      destruct (relations (model s) !! PEER) as [bag|]; [|done].
      by injection Hget as ->.
    - by apply leader_elected_leaves_provisioned in Hrun as [_ ?]. }
  pose proof (leader_elected_provisioned (model s) (unit s) Hp) as Hrun.
  rewrite state_eta in Hrun. by rewrite Hrun.
Qed.

Lemma leader_elected_idempotent_witness :
  let s := {| model := with_credential "dkryFMT07elszGNU" peers_joined;
              unit := unit_b |} in
  _leader_elected s = Returns () s
  ∧ relation_writes (model (final_state (_leader_elected s)))
      = relation_writes (model s).
Proof.
  apply (leader_elected_idempotent
           {| model := with_credential "dkryFMT07elszGNU" peers_joined;
              unit := unit_b |}).
  right.
  exists {| model := peers_joined; unit := unit_a |},
    {| model := with_credential "dkryFMT07elszGNU" peers_joined;
       unit := unit_after_provisioning "dkryFMT07elszGNU" unit_a |}.
  split; [vm_compute; reflexivity | reflexivity].
Defined.

(** ** Runs of several calls *)

Lemma run_each_get_password m us :
  is_Some (relations m !! PEER) →
  run_each _get_password m us
    = map (fun u => Returns (default "" (stored_credential m))
                      {| model := m; unit := u |}) us.
Proof.
  intros [bag Hbag]. induction us as [|u us IH]; [done|]. simpl.
  rewrite (get_password_stored {| model := m; unit := u |} bag Hbag).
  simpl. by rewrite IH.
Qed.

Lemma run_provisioned m us :
  phase m = PROVISIONED →
  leader_elected_run m us
    = map (fun u => Returns () {| model := m; unit := u |}) us.
Proof.
  intros Hp. unfold leader_elected_run.
  induction us as [|u us IH]; [done|]. simpl.
  rewrite (leader_elected_provisioned m u Hp). simpl. by rewrite IH.
Qed.

Lemma run_unprovisioned m u us :
  is_Some (relations m !! PEER) →
  phase m = UNPROVISIONED →
  is_leader u = true →
  let password := generated {| model := m; unit := u |} in
  let m1 := with_credential password m in
  leader_elected_run m (u :: us)
    = Returns () {| model := m1; unit := unit_after_provisioning password u |}
        :: map (fun u' => Returns () {| model := m1; unit := u' |}) us.
Proof.
  intros Hpeers Hp Hl password m1. unfold leader_elected_run. simpl.
  rewrite (leader_elected_unprovisioned m u Hpeers Hp Hl). simpl.
  f_equal. apply run_provisioned, phase_with_credential.
Qed.

(** Handlers of units that are not the leader, on an unprovisioned
    model: each is refused and the model stays as it is. *)
Lemma run_not_leaders m pre rest :
  is_Some (relations m !! PEER) →
  phase m = UNPROVISIONED →
  Forall (λ v, is_leader v = false) pre →
  leader_elected_run m (pre ++ rest)
    = map (fun v => Raises RelationDataAccessError
                      {| model := m; unit := consume 16 v |}) pre
        ++ leader_elected_run m rest.
Proof.
  intros Hpeers Hp Hpre. unfold leader_elected_run.
  induction Hpre as [|v pre Hv _ IH]; [done|]. simpl.
  rewrite (leader_elected_not_leader m v Hpeers Hp Hv). simpl. by rewrite IH.
Qed.

(** What one handler does to the model: nothing, or the write that
    provisions it. *)
Lemma leader_elected_effect s :
  model (final_state (_leader_elected s)) = model s
  ∨ (phase (model s) = UNPROVISIONED
     ∧ model (final_state (_leader_elected s))
         = with_credential (generated s) (model s)).
Proof.
  rewrite leader_elected_eq.
  destruct (relations (model s) !! PEER) as [bag|] eqn:Hbag; [|by left].
  destruct (truthy (default "" (bag !! PEER_PASSWORD_KEY))) eqn:Ht; [by left|].
  destruct (is_leader (unit s)); [|by left].
  right. split; [|done]. apply phase_unprovisioned.
  unfold stored_credential. by rewrite Hbag.
Qed.

Lemma models_of_run_provisioned m us j mj :
  phase m = PROVISIONED →
  models_of_run m (leader_elected_run m us) !! j = Some mj → mj = m.
Proof.
  intros Hp. rewrite (run_provisioned m us Hp). unfold models_of_run.
  destruct j as [|j]; simpl; [congruence|].
  rewrite list_lookup_fmap, list_lookup_fmap.
  destruct (us !! j); simpl; congruence.
Qed.

Lemma models_of_run_cons m u us :
  models_of_run m (leader_elected_run m (u :: us))
    = m :: models_of_run
             (model (final_state (_leader_elected {| model := m; unit := u |})))
             (leader_elected_run
                (model (final_state (_leader_elected {| model := m; unit := u |})))
                us).
Proof. reflexivity. Qed.

(** The models of a run, whatever the units: each is the initial one or
    the one the single provisioning write made of it, and once the model
    is provisioned it stays as it is. *)
Lemma run_models m us :
  let ms := models_of_run m (leader_elected_run m us) in
  (∀ j mj, ms !! j = Some mj →
     mj = m
     ∨ (phase m = UNPROVISIONED ∧ phase mj = PROVISIONED
        ∧ ∃ password,
            relation_writes mj
              = relation_writes m ++ [(PEER, PEER_PASSWORD_KEY, password)]))
  ∧ (∀ i j mi mj, ms !! i = Some mi → ms !! j = Some mj → (i ≤ j)%nat →
       phase mi = PROVISIONED → mj = mi).
Proof.
  revert m. induction us as [|u us IH]; intros m ms; subst ms.
  { split.
    - intros [|j] mj Hj; simpl in Hj; [|by rewrite lookup_nil in Hj].
      left. congruence.
    - intros [|i] [|j] mi mj Hi Hj; simpl in *;
        rewrite ?lookup_nil in *; congruence. }
  rewrite models_of_run_cons.
  pose proof (leader_elected_effect {| model := m; unit := u |}) as Heff.
  cbn [model] in Heff. revert Heff.
  generalize (model (final_state (_leader_elected {| model := m; unit := u |})))
    as m1.
  intros m1 Heff. destruct (IH m1) as [IHa IHb].
  destruct Heff as [Hsame|[Hun Hnew]].
  - subst m1. split.
    + intros [|j] mj Hj; simpl in Hj; [left; congruence|].
      exact (IHa j mj Hj).
    + intros [|i] [|j] mi mj Hi Hj Hle Hpi; simpl in *.
      * congruence.
      * injection Hi as <-.
        exact (models_of_run_provisioned m us j mj Hpi Hj).
      * lia.
      * eapply IHb; [exact Hi|exact Hj|lia|done].
  - assert (Hp1 : phase m1 = PROVISIONED)
      by (rewrite Hnew; apply phase_with_credential).
    split.
    + intros [|j] mj Hj; simpl in Hj; [left; congruence|].
      apply (models_of_run_provisioned m1 us j mj Hp1) in Hj as ->.
      right. split; [done|]. split; [done|].
      exists (generated {| model := m; unit := u |}). by rewrite Hnew.
    + intros [|i] [|j] mi mj Hi Hj Hle Hpi; simpl in *.
      * congruence.
      * injection Hi as <-. congruence.
      * lia.
      * eapply IHb; [exact Hi|exact Hj|lia|done].
Qed.

Lemma models_of_returns (m1 : Model) (us : list Unit) (i : nat) (mi : Model) :
  map (fun o : Outcome () => model (final_state o))
      (map (fun u => Returns () {| model := m1; unit := u |}) us) !! i = Some mi →
  mi = m1.
Proof.
  rewrite list_lookup_fmap, list_lookup_fmap.
  destruct (us !! i); simpl; congruence.
Qed.

(** C3. After [_leader_elected] has returned, the peer databag holds a
    non-empty password; when the group was unprovisioned before the call it
    is the value the generator returned in that call, and the one write the
    call made; and any number of later calls of [_get_password], by any
    units, each return exactly that value and leave the model as it is. *)
Theorem get_password_after_provisioning (s s1 : State) (readers : list Unit) :
  _leader_elected s = Returns () s1 →
  ∃ password,
    stored_credential (model s1) = Some password
    ∧ truthy password = true
    ∧ (phase (model s) = UNPROVISIONED →
         password = generated s
         ∧ relation_writes (model s1)
             = relation_writes (model s) ++ [(PEER, PEER_PASSWORD_KEY, password)])
    ∧ run_each _get_password (model s1) readers
        = map (fun u => Returns password {| model := model s1; unit := u |})
              readers.
Proof.
  intros Hrun.
  destruct (leader_elected_leaves_provisioned s s1 Hrun) as [Hpeers Hp].
  pose proof Hp as Ht. apply phase_provisioned in Ht.
  destruct (stored_credential (model s1)) as [pw|] eqn:Hst; [|done].
  simpl in Ht. exists pw. split; [done|]. split; [done|]. split.
  - intros Hun. apply phase_unprovisioned in Hun.
    rewrite leader_elected_eq in Hrun. unfold stored_credential in Hun.
    destruct (relations (model s) !! PEER) as [bag|]; [|done].
    rewrite Hun in Hrun. destruct (is_leader (unit s)); [|done].
    injection Hrun as <-. simpl in *.
    rewrite stored_with_credential in Hst. by injection Hst as <-.
  - rewrite (run_each_get_password _ _ Hpeers). by rewrite Hst.
Qed.

Lemma get_password_after_provisioning_witness :
  let s := {| model := peers_joined; unit := unit_a |} in
  let s1 := {| model := with_credential "dkryFMT07elszGNU" peers_joined;
               unit := unit_after_provisioning "dkryFMT07elszGNU" unit_a |} in
  let readers := [unit_b; unit_a; unit_b] in
  ∃ password,
    stored_credential (model s1) = Some password
    ∧ truthy password = true
    ∧ (phase (model s) = UNPROVISIONED →
         password = generated s
         ∧ relation_writes (model s1)
             = relation_writes (model s) ++ [(PEER, PEER_PASSWORD_KEY, password)])
    ∧ run_each _get_password (model s1) readers
        = map (fun u => Returns password {| model := model s1; unit := u |})
              readers.
Proof.
  apply (get_password_after_provisioning
           {| model := peers_joined; unit := unit_a |}
           {| model := with_credential "dkryFMT07elszGNU" peers_joined;
              unit := unit_after_provisioning "dkryFMT07elszGNU" unit_a |}
           [unit_b; unit_a; unit_b]).
  vm_compute. reflexivity.
Defined.

(** C1. Leader-elected events delivered one after the other on a model
    whose peer relation is there.  Whatever the units: from a model in
    which the key holds a non-empty value onwards the model never changes
    again, so the value is never overwritten and the group never leaves
    [PROVISIONED]; and the whole run adds at most one write to the
    journal.  On a provisioned model every handler returns.  On an
    unprovisioned one the transition is made once, by the first handler
    whose unit is the leader: the handlers of the units before it, which
    are not, are refused and leave the model as it is; the leader's handler
    and all later ones return, and from the leader's handler on the model
    is [PROVISIONED] by exactly one write. *)
Theorem provisioned_once (m : Model) (us : list Unit) :
  is_Some (relations m !! PEER) →
  let os := leader_elected_run m us in
  let ms := models_of_run m os in
  (∀ i j mi mj, ms !! i = Some mi → ms !! j = Some mj → (i ≤ j)%nat →
     phase mi = PROVISIONED → mj = mi)
  ∧ (∀ j mj, ms !! j = Some mj →
       ∃ ws, relation_writes mj = relation_writes m ++ ws ∧ (length ws ≤ 1)%nat)
  ∧ (phase m = PROVISIONED → Forall (λ o, returned o = true) os)
  ∧ (phase m = UNPROVISIONED →
       ∀ pre u post, us = pre ++ u :: post →
         Forall (λ v, is_leader v = false) pre → is_leader u = true →
         Forall (λ o, returned o = false) (take (length pre) os)
         ∧ Forall (λ o, returned o = true) (drop (length pre) os)
         ∧ (∀ j mj, (j ≤ length pre)%nat → ms !! j = Some mj → mj = m)
         ∧ (∀ j mj, (length pre < j)%nat → ms !! j = Some mj →
              phase mj = PROVISIONED
              ∧ ∃ password,
                  relation_writes mj
                    = relation_writes m ++ [(PEER, PEER_PASSWORD_KEY, password)])).
Proof.
  intros Hpeers os ms. subst os ms.
  destruct (run_models m us) as [Hcases Hstable].
  split; [exact Hstable|]. split; [|split].
  - intros j mj Hj. destruct (Hcases j mj Hj) as [->|(_ & _ & pw & Hw)].
    + exists []. rewrite app_nil_r. split; [done | simpl; lia].
    + eexists [_]. split; [exact Hw | simpl; lia].
  - intros Hp. rewrite (run_provisioned m us Hp).
    apply Forall_forall. intros o Ho.
    apply list_elem_of_fmap in Ho as (u' & -> & _). done.
  - intros Hp pre u post -> Hpre Hu.
    rewrite (run_not_leaders m pre (u :: post) Hpeers Hp Hpre).
    rewrite (run_unprovisioned m u post Hpeers Hp Hu).
    set (password := generated {| model := m; unit := u |}).
    set (m1 := with_credential password m).
    set (refused := map (fun v => Raises RelationDataAccessError
                                    {| model := m; unit := consume 16 v |}) pre).
    set (served := Returns () {| model := m1; unit := unit_after_provisioning password u |}
                     :: map (fun u' => Returns () {| model := m1; unit := u' |}) post).
    assert (Hlen : length refused = length pre) by (subst refused; by rewrite length_map).
    assert (Hp1 : phase m1 = PROVISIONED) by apply phase_with_credential.
    split; [|split; [|split]].
    + rewrite <- Hlen, take_app_length. subst refused.
      apply Forall_forall. intros o Ho.
      apply list_elem_of_fmap in Ho as (v & -> & _). done.
    + rewrite <- Hlen, drop_app_length. subst served.
      constructor; [done|]. apply Forall_forall. intros o Ho.
      apply list_elem_of_fmap in Ho as (u' & -> & _). done.
    + intros j mj Hle Hj. unfold models_of_run in Hj.
      destruct j as [|j]; simpl in Hj; [congruence|].
      rewrite map_app, lookup_app_l in Hj
        by (rewrite length_map, Hlen; lia).
      subst refused. rewrite !list_lookup_fmap in Hj.
      destruct (pre !! j); simpl in Hj; congruence.
    + intros j mj Hlt Hj. unfold models_of_run in Hj.
      destruct j as [|j]; [lia|]. simpl in Hj.
      rewrite map_app, lookup_app_r in Hj
        by (rewrite length_map, Hlen; lia).
      rewrite length_map, Hlen in Hj.
      assert (mj = m1) as ->.
      { subst served. destruct (j - length pre)%nat as [|k]; simpl in Hj;
          [congruence|].
        rewrite !list_lookup_fmap in Hj.
        destruct (post !! k); simpl in Hj; congruence. }
      split; [done|]. by exists password.
Qed.

Lemma provisioned_once_witness :
  let m := peers_joined in
  let us := [unit_b; unit_a; unit_b; unit_a] in
  let os := leader_elected_run m us in
  let ms := models_of_run m os in
  (∀ i j mi mj, ms !! i = Some mi → ms !! j = Some mj → (i ≤ j)%nat →
     phase mi = PROVISIONED → mj = mi)
  ∧ (∀ j mj, ms !! j = Some mj →
       ∃ ws, relation_writes mj = relation_writes m ++ ws ∧ (length ws ≤ 1)%nat)
  ∧ (phase m = PROVISIONED → Forall (λ o, returned o = true) os)
  ∧ (phase m = UNPROVISIONED →
       ∀ pre u post, us = pre ++ u :: post →
         Forall (λ v, is_leader v = false) pre → is_leader u = true →
         Forall (λ o, returned o = false) (take (length pre) os)
         ∧ Forall (λ o, returned o = true) (drop (length pre) os)
         ∧ (∀ j mj, (j ≤ length pre)%nat → ms !! j = Some mj → mj = m)
         ∧ (∀ j mj, (length pre < j)%nat → ms !! j = Some mj →
              phase mj = PROVISIONED
              ∧ ∃ password,
                  relation_writes mj
                    = relation_writes m ++ [(PEER, PEER_PASSWORD_KEY, password)])).
Proof.
  apply (provisioned_once peers_joined [unit_b; unit_a; unit_b; unit_a]).
  vm_compute. by eexists.
Defined.

(** ** The health check *)



Lemma redis_check_no_version s bag info :
  relations (model s) !! PEER = Some bag →
  redis_server (unit s) (default "" (bag !! PEER_PASSWORD_KEY)) = Some info →
  info !! "redis_version" = None →
  _redis_check s = Raises KeyError s.
Proof.
  intros Hbag Hinfo Hver. unfold _redis_check, try_except, bind.
  rewrite get_password_eq, Hbag. unfold redis_info_server. rewrite Hinfo.
  unfold getitem. by rewrite Hver.
Qed.




(** ** Interleaved handlers *)

Lemma step_replica_read m u :
  is_Some (relations m !! PEER) →
  step_replica m {| replica_unit := u; progress := NotStarted |}
    = (m, {| replica_unit := u;
             progress := HasRead (default "" (stored_credential m)) |}).
Proof.
  intros [bag Hbag]. unfold step_replica. simpl.
  by rewrite (get_password_stored {| model := m; unit := u |} bag Hbag).
Qed.

Lemma step_replica_skip m u redis_password :
  truthy redis_password = true →
  step_replica m {| replica_unit := u; progress := HasRead redis_password |}
    = (m, {| replica_unit := u; progress := Finished |}).
Proof.
  intros Ht. unfold step_replica. simpl.
  by rewrite leader_elected_body_truthy.
Qed.

Lemma step_replica_write m u redis_password :
  is_Some (relations m !! PEER) →
  truthy redis_password = false →
  is_leader u = true →
  let password := generated {| model := m; unit := u |} in
  step_replica m {| replica_unit := u; progress := HasRead redis_password |}
    = (with_credential password m,
       {| replica_unit := unit_after_provisioning password u;
          progress := Finished |}).
Proof.
  intros [bag Hbag] Ht Hl password. unfold step_replica. simpl.
  erewrite leader_elected_body_falsy; [done | done | exact Hbag | exact Hl |].
  apply generated_shape.
Qed.

Lemma step_replica_refused m u redis_password :
  is_Some (relations m !! PEER) →
  truthy redis_password = false →
  is_leader u = false →
  step_replica m {| replica_unit := u; progress := HasRead redis_password |}
    = (m, {| replica_unit := consume 16 u;
             progress := Failed RelationDataAccessError |}).
Proof.
  intros [bag Hbag] Ht Hl. unfold step_replica. simpl.
  by erewrite leader_elected_body_not_leader.
Qed.

(** The two steps of one replica, taken together, are the handler. *)
Lemma two_steps_are_the_handler m u :
  is_Some (relations m !! PEER) →
  let r1 := (step_replica m {| replica_unit := u; progress := NotStarted |}).2 in
  step_replica m r1
    = after (_leader_elected {| model := m; unit := u |}) (fun _ => Finished).
Proof.
  intros Hpeers r1. subst r1.
  rewrite step_replica_read by done. simpl.
  destruct (phase m) eqn:Hp.
  - destruct (is_leader u) eqn:Hl.
    + rewrite leader_elected_unprovisioned by done. simpl.
      apply step_replica_write; [done| |done]. by apply phase_unprovisioned.
    + rewrite leader_elected_not_leader by done. simpl.
      apply step_replica_refused; [done| |done]. by apply phase_unprovisioned.
  - rewrite leader_elected_provisioned by done. simpl.
    apply step_replica_skip. by apply phase_provisioned.
Qed.

Lemma count_finished_le rs : (count_finished rs ≤ length rs)%nat.
Proof. induction rs as [|r rs IH]; simpl; [lia|]. destruct (finished r); lia. Qed.


















Lemma run_schedule_app a b g :
  run_schedule (a ++ b) g = run_schedule b (run_schedule a g).
Proof. unfold run_schedule. apply foldl_app. Qed.





(** * More of the charm *)

(** ** Who touches the relation data *)

Lemma keeps_relations_ret {A} (a : A) : keeps_relations (ret a).
Proof. by intros s. Qed.

Lemma keeps_relations_raise {A} e : keeps_relations (raise e : M A).
Proof. by intros s. Qed.

Lemma keeps_relations_bind {A B} (c : M A) (k : A → M B) :
  keeps_relations c → (∀ a, keeps_relations (k a)) → keeps_relations (bind c k).
Proof.
  intros Hc Hk s. unfold bind. specialize (Hc s).
  destruct (c s) as [a s'|e s']; simpl in *; [|done].
  destruct (Hk a s') as [-> ->]. done.
Qed.

Lemma keeps_relations_try {A} (body : M A) catches (handler : M A) :
  keeps_relations body → keeps_relations handler →
  keeps_relations (try_except body catches handler).
Proof.
  intros Hb Hh s. unfold try_except. specialize (Hb s).
  destruct (body s) as [a s'|e s']; simpl in *; [done|].
  destruct (catches e); simpl; [|done].
  destruct (Hh s') as [-> ->]. done.
Qed.

Lemma keeps_relations_get_password : keeps_relations _get_password.
Proof.
  intros s. rewrite get_password_eq.
  by destruct (relations (model s) !! PEER).
Qed.

Lemma keeps_relations_if {A} (b : bool) (c d : M A) :
  keeps_relations c → keeps_relations d → keeps_relations (if b then c else d).
Proof. by destruct b. Qed.

Lemma keeps_relations_redis_info password :
  keeps_relations (redis_info_server password).
Proof. intros s. unfold redis_info_server. by destruct (redis_server _ _). Qed.

Lemma keeps_relations_getitem d key : keeps_relations (getitem d key).
Proof. intros s. unfold getitem. by destruct (d !! key). Qed.

Ltac keeps_relations :=
  repeat first
    [ apply keeps_relations_get_password
    | apply keeps_relations_redis_info
    | apply keeps_relations_getitem
    | apply keeps_relations_ret
    | apply keeps_relations_try
    | apply keeps_relations_if
    | apply keeps_relations_bind; [|intros ?]
    | solve [by intros ?] ].

Lemma keeps_relations_redis_check : keeps_relations _redis_check.
Proof. unfold _redis_check. keeps_relations. Qed.

Lemma keeps_relations_update_status : keeps_relations _update_status.
Proof.
  unfold _update_status. keeps_relations.
Qed.

Lemma keeps_relations_check_service : keeps_relations check_service.
Proof.
  unfold check_service. keeps_relations.
Qed.

Lemma keeps_relations_get_password_action : keeps_relations _get_password_action.
Proof. unfold _get_password_action. keeps_relations. Qed.

Lemma keeps_relations_redis_layer : keeps_relations _redis_layer.
Proof. unfold _redis_layer. keeps_relations. Qed.

Lemma hook_keeps_relations_ret {A} (a : A) : hook_keeps_relations (hook_ret a).
Proof. by intros h. Qed.

Lemma hook_keeps_relations_bind {A B} (c : H A) (k : A → H B) :
  hook_keeps_relations c → (∀ a, hook_keeps_relations (k a)) →
  hook_keeps_relations (hook_bind c k).
Proof.
  intros Hc Hk h. unfold hook_bind. specialize (Hc h).
  destruct (c h) as [a h'|e h']; simpl in *; [|done].
  destruct (Hk a h') as [-> ->]. done.
Qed.

Lemma hook_keeps_relations_lift {A} (c : M A) :
  keeps_relations c → hook_keeps_relations (lift c).
Proof.
  intros Hc h. unfold lift. specialize (Hc (state h)).
  by destruct (c (state h)).
Qed.

Lemma hook_keeps_relations_if {A} (b : bool) (c d : H A) :
  hook_keeps_relations c → hook_keeps_relations d →
  hook_keeps_relations (if b then c else d).
Proof. by destruct b. Qed.

Lemma hook_keeps_relations_update_layer : hook_keeps_relations _update_layer.
Proof.
  unfold _update_layer.
  apply hook_keeps_relations_bind; [done|]. intros connected.
  apply hook_keeps_relations_if; [by apply hook_keeps_relations_lift|].
  apply hook_keeps_relations_bind; [done|]. intros current_layer.
  apply hook_keeps_relations_bind;
    [apply hook_keeps_relations_lift, keeps_relations_redis_layer|].
  intros new_layer.
  apply hook_keeps_relations_bind; [|by intros _; apply hook_keeps_relations_lift].
  apply hook_keeps_relations_if; [|done].
  repeat (apply hook_keeps_relations_bind; [done|intros _]).
  done.
Qed.

Lemma hook_keeps_relations_config_changed : hook_keeps_relations _config_changed.
Proof.
  unfold _config_changed.
  apply hook_keeps_relations_bind; [apply hook_keeps_relations_update_layer|].
  intros _.
  apply hook_keeps_relations_bind; [by apply hook_keeps_relations_lift|].
  intros st.
  apply hook_keeps_relations_if; [done|].
  apply hook_keeps_relations_bind; [|done].
  apply hook_keeps_relations_lift, keeps_relations_redis_check.
Qed.

Lemma dispatch_keeps_relations (e : Event) :
  e ≠ leader_elected → hook_keeps_relations (dispatch e).
Proof.
  intros He. destruct e; simpl; try done.
  - apply hook_keeps_relations_update_layer.
  - apply hook_keeps_relations_config_changed.
  - apply hook_keeps_relations_config_changed.
  - apply hook_keeps_relations_lift, keeps_relations_update_status.
  - apply hook_keeps_relations_lift, keeps_relations_check_service.
  - apply hook_keeps_relations_lift, keeps_relations_get_password_action.
Qed.

(** X1. Of the handlers that [__init__] registers, only the one of
    [leader_elected] writes relation data: every other event, in whatever
    hook it is delivered and whether its handler returns or raises, leaves
    the content of all relations and the journal of writes as they were. *)
Theorem only_leader_elected_writes (e : Event) (h : Hook) :
  e ≠ leader_elected →
  relations (model (state (final_hook (dispatch e h)))) = relations (model (state h))
  ∧ relation_writes (model (state (final_hook (dispatch e h))))
      = relation_writes (model (state h)).
Proof. intros He. by apply dispatch_keeps_relations. Qed.

Lemma only_leader_elected_writes_witness :
  let h := start_hook (with_credential "dkryFMT07elszGNU" peers_joined)
             unit_a empty_container in
  relations (model (state (final_hook (dispatch config_changed h))))
    = relations (model (state h))
  ∧ relation_writes (model (state (final_hook (dispatch config_changed h))))
      = relation_writes (model (state h)).
Proof.
  intros h. apply (only_leader_elected_writes config_changed h). discriminate.
Defined.

(** What one event does to the relation data: nothing, or the one write
    that provisions the password. *)
Lemma dispatch_effect (e : Event) (h : Hook) :
  let m := model (state h) in
  let m' := model (state (final_hook (dispatch e h))) in
  (relations m' = relations m ∧ relation_writes m' = relation_writes m)
  ∨ (phase m = UNPROVISIONED ∧ m' = with_credential (generated (state h)) m).
Proof.
  intros m m'. destruct (decide (e = leader_elected)) as [->|He].
  - subst m m'. simpl. unfold lift.
    destruct (leader_elected_effect (state h)) as [Hsame|[Hp Hnew]];
      destruct (_leader_elected (state h)) as [a s'|e s']; simpl in *.
    + left. by rewrite Hsame.
    + left. by rewrite Hsame.
    + by right.
    + by right.
  - left. by apply dispatch_keeps_relations.
Qed.

Lemma phase_relations m m' : relations m' = relations m → phase m' = phase m.
Proof. intros H. unfold phase, stored_credential. by rewrite H. Qed.

Lemma run_events_provisioned (m : Model) (evs : list (Event * Unit * Container)) :
  phase m = PROVISIONED →
  Forall (λ o, relations (model (state (final_hook o))) = relations m
               ∧ relation_writes (model (state (final_hook o))) = relation_writes m)
         (run_events m evs).
Proof.
  revert m. induction evs as [|[[e u] c] evs IH]; intros m Hp; simpl; [done|].
  set (o := dispatch e (start_hook m u c)).
  assert (Ho : relations (model (state (final_hook o))) = relations m
               ∧ relation_writes (model (state (final_hook o))) = relation_writes m).
  { destruct (dispatch_effect e (start_hook m u c)) as [H|[H _]]; [done|].
    simpl in H. congruence. }
  constructor; [done|]. destruct Ho as [Hr Hw].
  eapply Forall_impl; [apply IH|].
  - by rewrite (phase_relations _ _ Hr).
  - simpl. intros o' [-> ->]. done.
Qed.

(** X2. Once the password is provisioned it is settled: whatever events
    follow (any of the seven, in any order, delivered to any units, leaders
    or not, with any containers, and whether their handlers return or
    raise), the content of all relations and the journal of writes stay
    exactly as they were. *)
Theorem events_keep_provisioned_password
    (m : Model) (evs : list (Event * Unit * Container)) :
  phase m = PROVISIONED →
  Forall (λ o, relations (model (state (final_hook o))) = relations m
               ∧ relation_writes (model (state (final_hook o))) = relation_writes m)
         (run_events m evs).
Proof. apply run_events_provisioned. Qed.

Lemma events_keep_provisioned_password_witness :
  let m := with_credential "dkryFMT07elszGNU" peers_joined in
  let evs := [(leader_elected, unit_b, empty_container);
              (config_changed, unit_a, empty_container);
              (get_initial_admin_password_action, unit_b, unreachable_container)] in
  Forall (λ o, relations (model (state (final_hook o))) = relations m
               ∧ relation_writes (model (state (final_hook o))) = relation_writes m)
         (run_events m evs).
Proof.
  intros m evs. apply (events_keep_provisioned_password m evs). reflexivity.
Defined.

(** X3. Over any sequence of events, from any model, the charm writes to
    relation data at most once: after every hook the journal of writes is
    the initial one with at most one entry added, that entry is the
    password written under the password key of the peer relation, and as
    long as nothing is added the relations are as they were. *)
Theorem events_write_at_most_once
    (m : Model) (evs : list (Event * Unit * Container)) :
  Forall (λ o, let m' := model (state (final_hook o)) in
               (relations m' = relations m
                ∧ relation_writes m' = relation_writes m)
               ∨ (∃ password,
                    relation_writes m'
                      = relation_writes m ++ [(PEER, PEER_PASSWORD_KEY, password)]
                    ∧ stored_credential m' = Some password
                    ∧ String.length password = 16
                    ∧ phase m = UNPROVISIONED))
         (run_events m evs).
Proof.
  revert m. induction evs as [|[[e u] c] evs IH]; intros m; simpl; [done|].
  set (o := dispatch e (start_hook m u c)).
  destruct (dispatch_effect e (start_hook m u c)) as [[Hr Hw]|[Hp Hm]];
    fold o in Hr, Hw || fold o in Hm; simpl in *.
  - constructor; [by left|].
    eapply Forall_impl; [apply IH|]. simpl. intros o'.
    rewrite Hr, Hw, (phase_relations _ _ Hr). done.
  - set (s := {| model := m; unit := u |}) in *.
    assert (Hnew : relation_writes (with_credential (generated s) m)
                     = relation_writes m ++ [(PEER, PEER_PASSWORD_KEY, generated s)]
                   ∧ stored_credential (with_credential (generated s) m)
                       = Some (generated s)
                   ∧ String.length (generated s) = 16
                   ∧ phase m = UNPROVISIONED).
    { split; [done|]. split; [apply stored_with_credential|].
      split; [apply generated_shape | done]. }
    constructor; [right; exists (generated s); by rewrite Hm|].
    eapply Forall_impl;
      [apply (run_events_provisioned _ evs); rewrite Hm; apply phase_with_credential|].
    simpl. intros o' [Hr' Hw']. right. exists (generated s).
    unfold stored_credential. rewrite Hr', Hw'. rewrite Hm. exact Hnew.
Qed.
(** ** The consumers of the password *)

(** [_redis_layer] in closed form. *)
Lemma redis_layer_eq s :
  _redis_layer s =
    match relations (model s) !! PEER with
    | Some bag => Returns (redis_layer (default "" (bag !! PEER_PASSWORD_KEY))) s
    | None => Raises AttributeError s
    end.
Proof.
  unfold _redis_layer, bind. rewrite get_password_eq.
  by destruct (relations (model s) !! PEER).
Qed.

Lemma visible_password_bag m bag :
  relations m !! PEER = Some bag →
  visible_password m = default "" (bag !! PEER_PASSWORD_KEY).
Proof. intros H. unfold visible_password, stored_credential. by rewrite H. Qed.

(** X4. With the peer relation there, the get-initial-admin-password
    action returns after exactly one call of [event.set_results], with a
    dictionary of the single key ["redis-password"]; its value is what the
    peer databag holds under the password key, and the empty string when
    the databag has no such entry (the action does not fail before the
    password is provisioned).  The model, the unit status and the log are
    left as they were. *)
Theorem get_password_action_result (s : State) :
  is_Some (relations (model s) !! PEER) →
  ∃ s',
    _get_password_action s = Returns () s'
    ∧ action_results (unit s')
        = action_results (unit s)
            ++ [ {[ "redis-password" := visible_password (model s) ]} ]
    ∧ model s' = model s
    ∧ status (unit s') = status (unit s)
    ∧ log (unit s') = log (unit s).
Proof.
  intros [bag Hbag]. unfold _get_password_action, bind.
  rewrite get_password_eq, Hbag, (visible_password_bag _ _ Hbag).
  eexists. split; [reflexivity|]. done.
Qed.

Lemma get_password_action_result_witness :
  let s := {| model := peers_joined; unit := unit_b |} in
  ∃ s',
    _get_password_action s = Returns () s'
    ∧ action_results (unit s')
        = action_results (unit s)
            ++ [ {[ "redis-password" := visible_password (model s) ]} ]
    ∧ model s' = model s
    ∧ status (unit s') = status (unit s)
    ∧ log (unit s') = log (unit s).
Proof.
  intros s. apply (get_password_action_result s). vm_compute. by eexists.
Defined.

(** X5. After the leader-elected handler of the leader has provisioned the
    password, every consumer sees that one value, on whatever unit it
    runs, leader or not: the reader returns it, the action reports it
    under ["redis-password"], and the layer that [_redis_layer] renders
    has the single service ["redis"] whose environment is
    [REDIS_PASSWORD] set to it. *)
Theorem consumers_see_the_provisioned_password (s : State) (u : Unit) :
  is_Some (relations (model s) !! PEER) →
  phase (model s) = UNPROVISIONED →
  is_leader (unit s) = true →
  ∃ s1 password,
    _leader_elected s = Returns () s1
    ∧ String.length password = 16
    ∧ let s2 := {| model := model s1; unit := u |} in
      _get_password s2 = Returns password s2
      ∧ (∃ s3, _get_password_action s2 = Returns () s3
               ∧ last (action_results (unit s3))
                   = Some {[ "redis-password" := password ]})
      ∧ (∃ layer, _redis_layer s2 = Returns layer s2
                  ∧ dom (services layer) = {[ "redis" ]}
                  ∧ environment <$> services layer !! "redis"
                      = Some {[ "REDIS_PASSWORD" := password ]}).
Proof.
  intros Hpeers Hp Hl. destruct s as [m u0]. simpl in *.
  pose proof (leader_elected_unprovisioned m u0 Hpeers Hp Hl) as Hrun. simpl in Hrun.
  set (s := {| model := m; unit := u0 |}) in *.
  eexists _, (generated s). split; [exact Hrun|].
  split; [apply generated_shape|]. cbn [model].
  set (s2 := {| model := with_credential (generated s) m; unit := u |}).
  assert (Hbag : relations (model s2) !! PEER
                 = Some (<[PEER_PASSWORD_KEY := generated s]>
                           (default ∅ (relations m !! PEER)))).
  { subst s2. unfold with_credential. simpl. by rewrite lookup_insert_eq. }
  split; [|split].
  - rewrite get_password_eq, Hbag. by rewrite lookup_insert_eq.
  - unfold _get_password_action, bind. rewrite get_password_eq, Hbag.
    rewrite lookup_insert_eq. eexists. split; [reflexivity|].
    simpl. by rewrite last_snoc.
  - rewrite redis_layer_eq, Hbag, lookup_insert_eq. eexists.
    split; [reflexivity|]. simpl. split; [by rewrite dom_singleton_L|].
    by rewrite lookup_singleton_eq.
Qed.

Lemma consumers_see_the_provisioned_password_witness :
  let s := {| model := peers_joined; unit := unit_a |} in
  ∃ s1 password,
    _leader_elected s = Returns () s1
    ∧ String.length password = 16
    ∧ let s2 := {| model := model s1; unit := unit_b |} in
      _get_password s2 = Returns password s2
      ∧ (∃ s3, _get_password_action s2 = Returns () s3
               ∧ last (action_results (unit s3))
                   = Some {[ "redis-password" := password ]})
      ∧ (∃ layer, _redis_layer s2 = Returns layer s2
                  ∧ dom (services layer) = {[ "redis" ]}
                  ∧ environment <$> services layer !! "redis"
                      = Some {[ "REDIS_PASSWORD" := password ]}).
Proof.
  intros s. apply (consumers_see_the_provisioned_password s unit_b).
  - vm_compute. by eexists.
  - reflexivity.
  - reflexivity.
Defined.

(** ** The health check on a reply without version *)

(** X6. When the Redis server answers [INFO server] with a reply that has
    no ["redis_version"] entry, the health check does not report "not
    running": the [KeyError] of the lookup is not a [RedisError], so it
    leaves [_redis_check] with the state untouched (no status, workload
    version or application status set), and [check_service] and
    [_update_status] end with that error after their log line;
    [check_service] sets no result. *)
Theorem health_check_reply_without_version
    (s : State) (bag info : gmap string string) :
  relations (model s) !! PEER = Some bag →
  redis_server (unit s) (default "" (bag !! PEER_PASSWORD_KEY)) = Some info →
  info !! "redis_version" = None →
  _redis_check s = Raises KeyError s
  ∧ check_service s
      = Raises KeyError (final_state (logger INFO "Beginning check_service" s))
  ∧ _update_status s
      = Raises KeyError (final_state (logger INFO "Beginning update_status" s)).
Proof.
  intros Hbag Hinfo Hver.
  split; [by eapply redis_check_no_version|]. split.
  - unfold check_service.
    set (s0 := final_state (logger INFO "Beginning check_service" s)).
    assert (Hlog : logger INFO "Beginning check_service" s = Returns () s0)
      by reflexivity.
    rewrite (bind_returns _ _ _ _ _ Hlog).
    by rewrite (bind_raises _ _ _ _ _ (redis_check_no_version s0 bag info Hbag Hinfo Hver)).
  - unfold _update_status.
    set (s0 := final_state (logger INFO "Beginning update_status" s)).
    assert (Hlog : logger INFO "Beginning update_status" s = Returns () s0)
      by reflexivity.
    rewrite (bind_returns _ _ _ _ _ Hlog).
    by rewrite (bind_raises _ _ _ _ _ (redis_check_no_version s0 bag info Hbag Hinfo Hver)).
Qed.

(** A unit whose Redis server answers every password with an empty
    reply. *)
Lemma health_check_reply_without_version_witness :
  let u := sample_unit (fun n => n) true (fun _ => Some ∅) in
  let s := {| model := peers_joined; unit := u |} in
  _redis_check s = Raises KeyError s
  ∧ check_service s
      = Raises KeyError (final_state (logger INFO "Beginning check_service" s))
  ∧ _update_status s
      = Raises KeyError (final_state (logger INFO "Beginning update_status" s)).
Proof.
  intros u s.
  apply (health_check_reply_without_version s ∅ ∅); reflexivity.
Defined.


(** ** The Pebble layer *)

Lemma lift_redis_layer h bag :
  relations (model (state h)) !! PEER = Some bag →
  lift _redis_layer h
    = HookReturns (redis_layer (default "" (bag !! PEER_PASSWORD_KEY))) h.
Proof.
  intros Hbag. unfold lift. rewrite redis_layer_eq, Hbag.
  by destruct h as [[]].
Qed.

(** [_update_layer] when Pebble answers and the peer relation is there:
    what is left to run once the plan and the new layer are at hand. *)
Lemma update_layer_connected h bag :
  can_connect (container h) = true →
  relations (model (state h)) !! PEER = Some bag →
  let new_layer := redis_layer (default "" (bag !! PEER_PASSWORD_KEY)) in
  _update_layer h =
    ((if bool_decide (plan_services (plan (container h)) ≠ services new_layer) then
        logger_debug_layer
          ("About to add_layer with layer_config:" +:+ newline +:+ "{}") new_layer >>!
        container_add_layer "redis" new_layer true >>!
        lift (logger INFO "Added updated layer 'redis' to Pebble plan") >>!
        container_restart "redis" >>!
        lift (logger INFO "Restarted redis service")
      else hook_ret ()) >>!
     lift (set_unit_status (ActiveStatus ""))) h.
Proof.
  intros Hc Hbag new_layer. unfold _update_layer at 1.
  unfold hook_bind at 1. unfold container_can_connect. rewrite Hc. cbn [negb].
  unfold hook_bind at 1. unfold container_get_plan.
  unfold hook_bind at 1. by rewrite (lift_redis_layer h bag Hbag).
Qed.

Lemma redis_service_replaces password old :
  combine_service (redis_service password) old = redis_service password.
Proof. reflexivity. Qed.

Lemma plan_after_add_layer password (old : gmap string Service) :
  let new := union_with (fun new old => Some (combine_service new old))
               (services (redis_layer password)) old in
  new !! "redis" = Some (redis_service password)
  ∧ ∀ k, k ≠ "redis" → new !! k = old !! k.
Proof.
  intros new. subst new. simpl. split.
  - rewrite lookup_union_with, lookup_singleton_eq.
    by destruct (old !! "redis").
  - intros k Hk. rewrite lookup_union_with, lookup_singleton_ne by done.
    by destruct (old !! k).
Qed.

(** X8. When Pebble does not answer in the workload container,
    [_update_layer] (and so the handler of [redis_pebble_ready]) returns
    with the unit status [WaitingStatus "Waiting for Pebble in workload
    container"] and does nothing else: no call to Pebble, no layer
    rendered or logged, model untouched.  It does not read the password,
    so this holds whether the peer relation is there or not. *)
Theorem update_layer_unreachable (h : Hook) :
  can_connect (container h) = false →
  ∃ h',
    _redis_pebble_ready h = HookReturns () h'
    ∧ status (unit (state h')) = WaitingStatus "Waiting for Pebble in workload container"
    ∧ container h' = container h
    ∧ model (state h') = model (state h)
    ∧ deferred h' = deferred h
    ∧ debug_layers h' = debug_layers h
    ∧ log (unit (state h')) = log (unit (state h)).
Proof.
  intros Hc. unfold _redis_pebble_ready, _update_layer, hook_bind,
    container_can_connect. rewrite Hc. cbn.
  eexists. split; [reflexivity|]. done.
Qed.

Lemma update_layer_unreachable_witness :
  let h := start_hook no_peers unit_a unreachable_container in
  ∃ h',
    _redis_pebble_ready h = HookReturns () h'
    ∧ status (unit (state h')) = WaitingStatus "Waiting for Pebble in workload container"
    ∧ container h' = container h
    ∧ model (state h') = model (state h)
    ∧ deferred h' = deferred h
    ∧ debug_layers h' = debug_layers h
    ∧ log (unit (state h')) = log (unit (state h)).
Proof.
  intros h. apply (update_layer_unreachable h). reflexivity.
Defined.

Lemma hook_bind_returns {A B} (c : H A) (k : A → H B) h a h' :
  c h = HookReturns a h' → hook_bind c k h = k a h'.
Proof. intros E. unfold hook_bind. by rewrite E. Qed.

Lemma hook_bind_raises {A B} (c : H A) (k : A → H B) h e h' :
  c h = HookRaises e h' → hook_bind c k h = HookRaises e h'.
Proof. intros E. unfold hook_bind. by rewrite E. Qed.

(** The branch of [_update_layer] that changes the plan. *)
Lemma update_layer_changes h new_layer :
  (logger_debug_layer
     ("About to add_layer with layer_config:" +:+ newline +:+ "{}") new_layer >>!
   container_add_layer "redis" new_layer true >>!
   lift (logger INFO "Added updated layer 'redis' to Pebble plan") >>!
   container_restart "redis" >>!
   lift (logger INFO "Restarted redis service")) h
  = HookReturns ()
      {| state :=
           final_state
             (logger INFO "Restarted redis service"
                (final_state
                   (logger INFO "Added updated layer 'redis' to Pebble plan"
                      (state h))));
         container :=
           {| can_connect := can_connect (container h);
              plan := {| plan_services :=
                           union_with (fun new old => Some (combine_service new old))
                             (services new_layer)
                             (plan_services (plan (container h))) |};
              pebble_calls := (pebble_calls (container h)
                                 ++ [AddLayer "redis" new_layer true])
                                ++ [Restart "redis"] |};
         deferred := deferred h;
         debug_layers :=
           debug_layers h
             ++ [("About to add_layer with layer_config:" +:+ newline +:+ "{}",
                  new_layer)] |}.
Proof. reflexivity. Qed.

(** X9. When Pebble answers and the peer relation is there,
    [_update_layer] returns with the unit active and the plan holding the
    service ["redis"] as rendered for the password the model shows, every
    other service of the plan left as it was.  Pebble is called exactly
    when the services of the plan differ from those of the rendered layer:
    then one [add_layer "redis"] with [combine=True] and one restart of
    ["redis"], in this order, and the layer (password included) goes to
    the debug log; otherwise no call at all. *)
Theorem update_layer_reachable (h : Hook) (bag : gmap string string) :
  can_connect (container h) = true →
  relations (model (state h)) !! PEER = Some bag →
  let password := default "" (bag !! PEER_PASSWORD_KEY) in
  let differs := bool_decide (plan_services (plan (container h))
                              ≠ services (redis_layer password)) in
  ∃ h',
    _update_layer h = HookReturns () h'
    ∧ status (unit (state h')) = ActiveStatus ""
    ∧ plan_services (plan (container h')) !! "redis" = Some (redis_service password)
    ∧ (∀ k, k ≠ "redis" →
         plan_services (plan (container h')) !! k
           = plan_services (plan (container h)) !! k)
    ∧ pebble_calls (container h')
        = pebble_calls (container h)
            ++ (if differs
                then [AddLayer "redis" (redis_layer password) true; Restart "redis"]
                else [])
    ∧ debug_layers h'
        = debug_layers h
            ++ (if differs
                then [("About to add_layer with layer_config:" +:+ newline +:+ "{}",
                       redis_layer password)]
                else [])
    ∧ model (state h') = model (state h)
    ∧ deferred h' = deferred h.
Proof.
  intros Hc Hbag password differs.
  rewrite (update_layer_connected h bag Hc Hbag). fold password.
  destruct (plan_after_add_layer password (plan_services (plan (container h))))
    as [Hredis Hother].
  destruct (bool_decide_reflect (plan_services (plan (container h))
                                 ≠ services (redis_layer password))) as [Hd|Hd];
    subst differs.
  - rewrite (hook_bind_returns _ _ h () _ (update_layer_changes h (redis_layer password))).
    eexists. split; [reflexivity|].
    split; [reflexivity|]. split; [exact Hredis|]. split; [exact Hother|].
    split; [cbn [lift set_unit_status pebble_calls container];
            by rewrite <- app_assoc|].
    split; [reflexivity|]. split; reflexivity.
  - apply dec_stable in Hd.
    rewrite (hook_bind_returns _ _ h () h eq_refl).
    eexists. split; [reflexivity|].
    split; [reflexivity|].
    split; [cbn [lift set_unit_status container plan]; rewrite Hd; apply lookup_singleton_eq|].
    split; [done|]. rewrite !app_nil_r. split; [reflexivity|].
    split; [reflexivity|]. split; reflexivity.
Qed.

Lemma update_layer_reachable_witness :
  let h := start_hook (with_credential "dkryFMT07elszGNU" peers_joined)
             unit_a empty_container in
  let bag : gmap string string := {[ PEER_PASSWORD_KEY := "dkryFMT07elszGNU" ]} in
  let password := default "" (bag !! PEER_PASSWORD_KEY) in
  let differs := bool_decide (plan_services (plan (container h))
                              ≠ services (redis_layer password)) in
  ∃ h',
    _update_layer h = HookReturns () h'
    ∧ status (unit (state h')) = ActiveStatus ""
    ∧ plan_services (plan (container h')) !! "redis" = Some (redis_service password)
    ∧ (∀ k, k ≠ "redis" →
         plan_services (plan (container h')) !! k
           = plan_services (plan (container h)) !! k)
    ∧ pebble_calls (container h')
        = pebble_calls (container h)
            ++ (if differs
                then [AddLayer "redis" (redis_layer password) true; Restart "redis"]
                else [])
    ∧ debug_layers h'
        = debug_layers h
            ++ (if differs
                then [("About to add_layer with layer_config:" +:+ newline +:+ "{}",
                       redis_layer password)]
                else [])
    ∧ model (state h') = model (state h)
    ∧ deferred h' = deferred h.
Proof.
  intros h bag. apply (update_layer_reachable h bag).
  - reflexivity.
  - vm_compute. reflexivity.
Defined.
Lemma hook_eta h :
  {| state := state h; container := container h; deferred := deferred h;
     debug_layers := debug_layers h |} = h.
Proof. by destruct h. Qed.

Lemma lift_returns {A} (c : M A) h a s' :
  c (state h) = Returns a s' →
  lift c h = HookReturns a {| state := s'; container := container h;
                              deferred := deferred h;
                              debug_layers := debug_layers h |}.
Proof. intros E. unfold lift. by rewrite E. Qed.

Lemma lift_raises {A} (c : M A) h e s' :
  c (state h) = Raises e s' →
  lift c h = HookRaises e {| state := s'; container := container h;
                             deferred := deferred h;
                             debug_layers := debug_layers h |}.
Proof. intros E. unfold lift. by rewrite E. Qed.

Lemma lift_unit_status h :
  lift unit_status h = HookReturns (status (unit (state h))) h.
Proof. unfold lift, unit_status. by rewrite hook_eta. Qed.

(** [_update_layer] when the plan already has the services of the layer. *)
Lemma update_layer_same_plan h bag :
  can_connect (container h) = true →
  relations (model (state h)) !! PEER = Some bag →
  plan_services (plan (container h))
    = services (redis_layer (default "" (bag !! PEER_PASSWORD_KEY))) →
  _update_layer h = lift (set_unit_status (ActiveStatus "")) h.
Proof.
  intros Hc Hbag Hplan. rewrite (update_layer_connected h bag Hc Hbag).
  rewrite bool_decide_eq_false_2 by (by intros Hne).
  by rewrite (hook_bind_returns _ _ h () h eq_refl).
Qed.

(** [_update_layer] when the plan has other services. *)
Lemma update_layer_other_plan h bag :
  can_connect (container h) = true →
  relations (model (state h)) !! PEER = Some bag →
  plan_services (plan (container h))
    ≠ services (redis_layer (default "" (bag !! PEER_PASSWORD_KEY))) →
  _update_layer h
    = lift (set_unit_status (ActiveStatus ""))
        {| state :=
             final_state
               (logger INFO "Restarted redis service"
                  (final_state
                     (logger INFO "Added updated layer 'redis' to Pebble plan"
                        (state h))));
           container :=
             {| can_connect := can_connect (container h);
                plan := {| plan_services :=
                             union_with (fun new old => Some (combine_service new old))
                               (services (redis_layer
                                            (default "" (bag !! PEER_PASSWORD_KEY))))
                               (plan_services (plan (container h))) |};
                pebble_calls :=
                  (pebble_calls (container h)
                     ++ [AddLayer "redis"
                           (redis_layer (default "" (bag !! PEER_PASSWORD_KEY))) true])
                    ++ [Restart "redis"] |};
           deferred := deferred h;
           debug_layers :=
             debug_layers h
               ++ [("About to add_layer with layer_config:" +:+ newline +:+ "{}",
                    redis_layer (default "" (bag !! PEER_PASSWORD_KEY)))] |}.
Proof.
  intros Hc Hbag Hplan. rewrite (update_layer_connected h bag Hc Hbag).
  rewrite bool_decide_eq_true_2 by done.
  by rewrite (hook_bind_returns _ _ h () _
                (update_layer_changes h
                   (redis_layer (default "" (bag !! PEER_PASSWORD_KEY))))).
Qed.


(** X10. [_update_layer] settles: when Pebble answers, the peer relation
    is there and the plan has no service besides ["redis"], the hook that
    a first call leaves is a fixed point of the next one, which returns
    without a call to Pebble, without a restart of Redis and without a log
    line. *)
Theorem update_layer_settles (h : Hook) :
  can_connect (container h) = true →
  is_Some (relations (model (state h)) !! PEER) →
  (∀ k, k ≠ "redis" → plan_services (plan (container h)) !! k = None) →
  ∃ h1,
    _update_layer h = HookReturns () h1
    ∧ _update_layer h1 = HookReturns () h1.
Proof.
  intros Hc [bag Hbag] Honly.
  set (new_layer := redis_layer (default "" (bag !! PEER_PASSWORD_KEY))).
  destruct (decide (plan_services (plan (container h)) = services new_layer))
    as [Hplan|Hplan].
  - rewrite (update_layer_same_plan h bag Hc Hbag Hplan).
    set (h1 := final_hook (lift (set_unit_status (ActiveStatus "")) h)).
    exists h1. split; [reflexivity|].
    by rewrite (update_layer_same_plan h1 bag Hc Hbag Hplan).
  - rewrite (update_layer_other_plan h bag Hc Hbag Hplan).
    match goal with |- context [lift _ ?h0] =>
      set (h1 := final_hook (lift (set_unit_status (ActiveStatus "")) h0)) end.
    exists h1. split; [reflexivity|].
    rewrite (update_layer_same_plan h1 bag Hc Hbag); [reflexivity|].
    subst h1. cbn [final_hook lift set_unit_status container plan plan_services].
    destruct (plan_after_add_layer (default "" (bag !! PEER_PASSWORD_KEY))
                (plan_services (plan (container h)))) as [Hredis Hother].
    apply map_eq. intros k. destruct (decide (k = "redis")) as [->|Hk].
    + rewrite Hredis. simpl. by rewrite lookup_singleton_eq.
    + rewrite (Hother k Hk), (Honly k Hk). simpl.
      by rewrite lookup_singleton_ne.
Qed.

Lemma update_layer_settles_witness :
  let h := start_hook (with_credential "dkryFMT07elszGNU" peers_joined)
             unit_a empty_container in
  ∃ h1,
    _update_layer h = HookReturns () h1
    ∧ _update_layer h1 = HookReturns () h1.
Proof.
  intros h. apply (update_layer_settles h).
  - reflexivity.
  - vm_compute. by eexists.
  - intros k _. apply lookup_empty.
Defined.

(** X11. [_update_layer] compares the rendered layer with the services of
    the whole plan.  When the plan has a service under another name than
    ["redis"], the comparison never succeeds: the call adds the layer and
    restarts Redis, and leaves that service in the plan, so that the next
    call does the same again. *)
Theorem update_layer_with_another_service
    (h : Hook) (bag : gmap string string) (name : string) (svc : Service) :
  can_connect (container h) = true →
  relations (model (state h)) !! PEER = Some bag →
  name ≠ "redis" →
  plan_services (plan (container h)) !! name = Some svc →
  ∃ h1,
    _update_layer h = HookReturns () h1
    ∧ pebble_calls (container h1)
        = pebble_calls (container h)
            ++ [AddLayer "redis" (redis_layer (default "" (bag !! PEER_PASSWORD_KEY))) true;
                Restart "redis"]
    ∧ can_connect (container h1) = true
    ∧ relations (model (state h1)) !! PEER = Some bag
    ∧ plan_services (plan (container h1)) !! name = Some svc.
Proof.
  intros Hc Hbag Hname Hsvc.
  assert (Hplan : plan_services (plan (container h))
                  ≠ services (redis_layer (default "" (bag !! PEER_PASSWORD_KEY)))).
  { intros Heq. rewrite Heq in Hsvc. simpl in Hsvc.
    by rewrite lookup_singleton_ne in Hsvc. }
  rewrite (update_layer_other_plan h bag Hc Hbag Hplan).
  eexists. split; [reflexivity|]. cbn [lift set_unit_status].
  split; [cbn [container pebble_calls]; by rewrite <- app_assoc|].
  split; [exact Hc|]. split; [exact Hbag|].
  cbn [container plan plan_services].
  destruct (plan_after_add_layer (default "" (bag !! PEER_PASSWORD_KEY))
              (plan_services (plan (container h)))) as [_ Hother].
  by rewrite (Hother name Hname).
Qed.

Lemma update_layer_with_another_service_witness :
  let c := {| can_connect := true;
              plan := {| plan_services := {[ "exporter" := redis_service "" ]} |};
              pebble_calls := [] |} in
  let h := start_hook peers_joined unit_a c in
  let bag : gmap string string := ∅ in
  ∃ h1,
    _update_layer h = HookReturns () h1
    ∧ pebble_calls (container h1)
        = pebble_calls (container h)
            ++ [AddLayer "redis" (redis_layer (default "" (bag !! PEER_PASSWORD_KEY))) true;
                Restart "redis"]
    ∧ can_connect (container h1) = true
    ∧ relations (model (state h1)) !! PEER = Some bag
    ∧ plan_services (plan (container h1)) !! "exporter" = Some (redis_service "").
Proof.
  intros c h bag.
  apply (update_layer_with_another_service h bag "exporter" (redis_service "")).
  - reflexivity.
  - vm_compute. reflexivity.
  - discriminate.
  - vm_compute. reflexivity.
Defined.
(** ** The handler of [config_changed] and [upgrade_charm] *)

(** X12. When Pebble does not answer, [_config_changed] defers the event
    and returns: the unit status is [WaitingStatus "Waiting for Pebble in
    workload container"], Redis is not probed (workload version,
    application status and action results are as before), Pebble is not
    called and the model is untouched.  No password is read, so this holds
    without the peer relation too. *)
Theorem config_changed_unreachable (h : Hook) :
  can_connect (container h) = false →
  ∃ h',
    _config_changed h = HookReturns () h'
    ∧ deferred h' = true
    ∧ status (unit (state h')) = WaitingStatus "Waiting for Pebble in workload container"
    ∧ container h' = container h
    ∧ model (state h') = model (state h)
    ∧ workload_version (unit (state h')) = workload_version (unit (state h))
    ∧ action_results (unit (state h')) = action_results (unit (state h))
    ∧ log (unit (state h')) = log (unit (state h)).
Proof.
  intros Hc. unfold _config_changed.
  assert (Hup : _update_layer h
                = lift (set_unit_status
                          (WaitingStatus "Waiting for Pebble in workload container")) h).
  { unfold _update_layer, hook_bind, container_can_connect. by rewrite Hc. }
  set (h1 := final_hook (lift (set_unit_status
                 (WaitingStatus "Waiting for Pebble in workload container")) h)).
  assert (Hup1 : _update_layer h = HookReturns () h1) by (by rewrite Hup).
  rewrite (hook_bind_returns _ _ _ _ _ Hup1).
  rewrite (hook_bind_returns _ _ _ _ _ (lift_unit_status h1)).
  eexists. split; [reflexivity|]. done.
Qed.

Lemma config_changed_unreachable_witness :
  let h := start_hook no_peers unit_a unreachable_container in
  ∃ h',
    _config_changed h = HookReturns () h'
    ∧ deferred h' = true
    ∧ status (unit (state h')) = WaitingStatus "Waiting for Pebble in workload container"
    ∧ container h' = container h
    ∧ model (state h') = model (state h)
    ∧ workload_version (unit (state h')) = workload_version (unit (state h))
    ∧ action_results (unit (state h')) = action_results (unit (state h))
    ∧ log (unit (state h')) = log (unit (state h)).
Proof.
  intros h. apply (config_changed_unreachable h). reflexivity.
Defined.



Lemma redis_layer_inj a b :
  services (redis_layer a) = services (redis_layer b) → a = b.
Proof.
  intros Heq.
  apply (f_equal (λ m : gmap string Service,
                    (environment <$> m !! "redis") ≫= (.!! "REDIS_PASSWORD"))) in Heq.
  simpl in Heq. rewrite !lookup_singleton_eq in Heq. simpl in Heq.
  rewrite !lookup_singleton_eq in Heq. congruence.
Qed.

(** X14. The password reaches the workload at the next update of the
    layer.  If the plan was rendered before the password was provisioned
    (so its only service is ["redis"] with the password the model showed
    then), then after the leader-elected handler of the leader has
    provisioned the password, [_update_layer] on any unit whose Pebble
    answers adds the layer with the new 16-character password and
    restarts Redis; the handler of [leader_elected] itself leaves the
    container alone. *)
Theorem provisioned_password_restarts_redis (h : Hook) (u : Unit) :
  can_connect (container h) = true →
  is_Some (relations (model (state h)) !! PEER) →
  phase (model (state h)) = UNPROVISIONED →
  is_leader (unit (state h)) = true →
  plan_services (plan (container h))
    = services (redis_layer (visible_password (model (state h)))) →
  ∃ h1 password,
    dispatch leader_elected h = HookReturns () h1
    ∧ container h1 = container h
    ∧ stored_credential (model (state h1)) = Some password
    ∧ String.length password = 16
    ∧ let h2 := {| state := {| model := model (state h1); unit := u |};
                   container := container h1;
                   deferred := false; debug_layers := [] |} in
      ∃ h3,
        _update_layer h2 = HookReturns () h3
        ∧ pebble_calls (container h3)
            = pebble_calls (container h)
                ++ [AddLayer "redis" (redis_layer password) true; Restart "redis"]
        ∧ plan_services (plan (container h3)) = services (redis_layer password).
Proof.
  intros Hc Hpeers Hp Hl Hplan. destruct Hpeers as [bag0 Hbag0].
  pose proof (leader_elected_unprovisioned (model (state h)) (unit (state h))
                (ex_intro _ bag0 Hbag0) Hp Hl) as Hrun.
  simpl in Hrun. rewrite state_eta in Hrun.
  set (pw := generated (state h)) in *.
  simpl. rewrite (lift_returns _ h _ _ Hrun).
  eexists _, pw. split; [reflexivity|]. cbn [container state model].
  split; [done|]. split; [apply stored_with_credential|].
  split; [apply generated_shape|].
  set (h2 := {| state := {| model := with_credential pw (model (state h)); unit := u |};
                container := container h; deferred := false; debug_layers := [] |}).
  set (bag := <[PEER_PASSWORD_KEY := pw]> (default ∅ (relations (model (state h)) !! PEER))).
  assert (Hbag : relations (model (state h2)) !! PEER = Some bag).
  { subst h2 bag. unfold with_credential. simpl. by rewrite lookup_insert_eq. }
  assert (Hpw : default "" (bag !! PEER_PASSWORD_KEY) = pw).
  { subst bag. by rewrite lookup_insert_eq. }
  assert (Hne : plan_services (plan (container h2))
                ≠ services (redis_layer (default "" (bag !! PEER_PASSWORD_KEY)))).
  { rewrite Hpw. subst h2. cbn [container]. rewrite Hplan. simpl.
    intros Heq. apply redis_layer_inj in Heq.
    apply phase_unprovisioned in Hp. fold (visible_password (model (state h))) in Hp.
    rewrite Heq in Hp. subst pw. rewrite generated_truthy in Hp. done. }
  rewrite (update_layer_other_plan h2 bag Hc Hbag Hne). rewrite Hpw.
  eexists. split; [reflexivity|]. cbn [lift set_unit_status].
  split; [cbn [container pebble_calls]; by rewrite <- app_assoc|].
  cbn [container plan plan_services].
  destruct (plan_after_add_layer pw (plan_services (plan (container h2))))
    as [Hredis Hother].
  apply map_eq. intros k. destruct (decide (k = "redis")) as [->|Hk].
  - rewrite Hredis. simpl. by rewrite lookup_singleton_eq.
  - rewrite (Hother k Hk). subst h2. cbn [container]. rewrite Hplan. simpl.
    by rewrite !lookup_singleton_ne.
Qed.

Lemma provisioned_password_restarts_redis_witness :
  let c := {| can_connect := true;
              plan := {| plan_services := services (redis_layer "") |};
              pebble_calls := [] |} in
  let h := start_hook peers_joined unit_a c in
  ∃ h1 password,
    dispatch leader_elected h = HookReturns () h1
    ∧ container h1 = container h
    ∧ stored_credential (model (state h1)) = Some password
    ∧ String.length password = 16
    ∧ let h2 := {| state := {| model := model (state h1); unit := unit_b |};
                   container := container h1;
                   deferred := false; debug_layers := [] |} in
      ∃ h3,
        _update_layer h2 = HookReturns () h3
        ∧ pebble_calls (container h3)
            = pebble_calls (container h)
                ++ [AddLayer "redis" (redis_layer password) true; Restart "redis"]
        ∧ plan_services (plan (container h3)) = services (redis_layer password).
Proof.
  intros c h. apply (provisioned_password_restarts_redis h unit_b).
  - reflexivity.
  - vm_compute. by eexists.
  - reflexivity.
  - reflexivity.
  - reflexivity.
Defined.
(** ** The range of the generator *)

Lemma choice_draw (seq : list ascii) s :
  seq ≠ [] →
  ∃ c, choice seq s = Returns c (set_unit (consume 1 (unit s)) s)
       ∧ seq !! (entropy (unit s) (drawn (unit s)) `mod` length seq) = Some c.
Proof.
  intros Hne. destruct seq as [|c0 seq']; [done|].
  set (l := c0 :: seq') in *.
  assert (Hlt : (entropy (unit s) (drawn (unit s)) `mod` length l < length l)%nat)
    by (apply Nat.mod_upper_bound; simpl; lia).
  destruct (lookup_lt_is_Some_2 _ _ Hlt) as [c Hc].
  exists c. split; [|done].
  unfold choice. subst l. cbv beta iota.
  unfold bind, randbelow. rewrite Hc. reflexivity.
Qed.

Lemma comprehension_draws (choices : list ascii) (xs : list nat) s :
  choices ≠ [] →
  ∃ cs, comprehension (fun _ => choice choices) xs s
          = Returns cs (set_unit (consume (length xs) (unit s)) s)
        ∧ Some <$> cs
            = (λ j, choices !! (entropy (unit s) j `mod` length choices))
                <$> seq (drawn (unit s)) (length xs).
Proof.
  intros Hne. revert s. induction xs as [|x xs IH]; intros s.
  - exists []. simpl. by rewrite set_unit_consume_0.
  - destruct (choice_draw choices s Hne) as (c & Hc & Hat).
    destruct (IH (set_unit (consume 1 (unit s)) s)) as (cs & Hcs & Hall).
    exists (c :: cs). split.
    + simpl. rewrite (bind_returns _ _ _ _ _ Hc), (bind_returns _ _ _ _ _ Hcs).
      unfold ret, set_unit. simpl. rewrite consume_consume.
      do 3 f_equal. lia.
    + simpl. rewrite Hat. f_equal. exact Hall.
Qed.

Lemma generate_password_returns_draws (s : State) :
  ∃ password,
    _generate_password s = Returns password (set_unit (consume 16 (unit s)) s)
    ∧ Some <$> String.list_ascii_of_string password
        = (λ j, alphabet !! (entropy (unit s) j `mod` 62))
            <$> seq (drawn (unit s)) 16.
Proof.
  destruct (comprehension_draws alphabet (seq 0 16) s) as (cs & Hcs & Hall);
    [by vm_compute|].
  exists (String.string_of_list_ascii cs). split.
  - unfold _generate_password. fold alphabet.
    by rewrite (bind_returns _ _ _ _ _ Hcs).
  - rewrite String.list_ascii_of_string_of_list_ascii. exact Hall.
Qed.

Lemma index_of_lookup (c : ascii) (cs : list ascii) :
  c ∈ cs → cs !! index_of c cs = Some c ∧ (index_of c cs < length cs)%nat.
Proof.
  induction cs as [|c' cs IH]; intros Hin; [by apply elem_of_nil in Hin|].
  simpl. destruct (Ascii.eqb_spec c c') as [->|Hne]; [simpl; split; [done|lia]|].
  apply elem_of_cons in Hin as [?|Hin]; [done|].
  destruct (IH Hin). simpl. split; [done|lia].
Qed.

Lemma tape_for_draws (start : nat) (cs : list ascii) (n : nat) :
  Forall (λ c, c ∈ alphabet) cs →
  (n ≤ length cs)%nat →
  (λ j, alphabet !! (tape_for start cs j `mod` 62)) <$> seq start n
    = Some <$> take n cs.
Proof.
  intros Hall Hn. apply list_eq. intros i.
  rewrite !list_lookup_fmap. destruct (decide (i < n)%nat) as [Hi|Hi].
  - rewrite lookup_seq_lt by done. rewrite lookup_take_lt by done.
    destruct (lookup_lt_is_Some_2 cs i ltac:(lia)) as [c Hc].
    rewrite Hc. cbn -[Nat.modulo tape_for alphabet index_of]. unfold tape_for.
    replace (start + i - start) with i by lia.
    rewrite (nth_lookup_Some _ _ _ _ Hc).
    destruct (index_of_lookup c alphabet) as [Hat Hlt].
    { eapply (proj1 (Forall_forall _ _) Hall), list_elem_of_lookup_2, Hc. }
    change (length alphabet) with 62 in Hlt.
    rewrite Nat.mod_small by exact Hlt. by rewrite Hat.
  - rewrite lookup_seq_ge by lia. rewrite lookup_take_ge by lia. done.
Qed.

(** X16. Every string of 16 characters of the alphabet is a password the
    generator can return: for the entropy tape whose next 16 draws are the
    positions of its characters in the alphabet, [_generate_password]
    returns exactly that string. *)
Theorem generate_password_onto (s : State) (cs : list ascii) :
  length cs = 16 →
  Forall (λ c, c ∈ alphabet) cs →
  let s' := {| model := model s;
               unit := with_entropy (tape_for (drawn (unit s)) cs) (unit s) |} in
  _generate_password s'
    = Returns (String.string_of_list_ascii cs) (set_unit (consume 16 (unit s')) s').
Proof.
  intros Hlen Hall s'.
  destruct (generate_password_returns_draws s') as (pw & Hrun & Hchars).
  rewrite Hrun. f_equal.
  rewrite <- (String.string_of_list_ascii_of_string pw). f_equal.
  pose proof (tape_for_draws (drawn (unit s)) cs 16 Hall ltac:(lia)) as Htape.
  rewrite (take_ge cs 16) in Htape by lia.
  assert (Heq : Some <$> String.list_ascii_of_string pw = Some <$> cs)
    by exact (eq_trans Hchars Htape).
  by apply (inj (fmap Some)) in Heq.
Qed.

Lemma generate_password_onto_witness :
  let s := {| model := peers_joined; unit := unit_b |} in
  let cs := String.list_ascii_of_string "Zz09AaBbCcDdEeFf" in
  let s' := {| model := model s;
               unit := with_entropy (tape_for (drawn (unit s)) cs) (unit s) |} in
  _generate_password s'
    = Returns (String.string_of_list_ascii cs) (set_unit (consume 16 (unit s')) s').
Proof.
  intros s cs. apply (generate_password_onto s cs).
  - reflexivity.
  - apply (bool_decide_unpack _). vm_compute. reflexivity.
Defined.
(** ** What provisioning does *)

(** X17. When the peer databag has no password under the password key (or
    an empty one) and the unit is the leader, [_leader_elected] returns
    after these effects: the databag gets the new 16-character password
    under the password key, all its other entries and all other relations
    being kept; the password is written in clear to the log, at level
    INFO, as ["REDIS PASSWORD: <password>"].  Unit status, application
    status, workload version and action results are not touched. *)
Theorem leader_elected_provisioning_effect (s : State) (bag : gmap string string) :
  relations (model s) !! PEER = Some bag →
  truthy (default "" (bag !! PEER_PASSWORD_KEY)) = false →
  is_leader (unit s) = true →
  ∃ s' password,
    _leader_elected s = Returns () s'
    ∧ String.length password = 16
    ∧ relations (model s')
        = <[PEER := <[PEER_PASSWORD_KEY := password]> bag]> (relations (model s))
    ∧ log (unit s') = log (unit s) ++ [(INFO, "REDIS PASSWORD: " +:+ password)]
    ∧ app_status (model s') = app_status (model s)
    ∧ status (unit s') = status (unit s)
    ∧ workload_version (unit s') = workload_version (unit s)
    ∧ action_results (unit s') = action_results (unit s).
Proof.
  intros Hbag Ht Hl. rewrite leader_elected_eq, Hbag, Ht, Hl.
  eexists _, (generated s). split; [reflexivity|].
  split; [apply generated_shape|].
  unfold with_credential. cbn [model unit relations]. rewrite Hbag.
  done.
Qed.

Lemma leader_elected_provisioning_effect_witness :
  let bag : gmap string string := {[ "cluster" := "redis" ]} in
  let s := {| model := {| relations := {[ PEER := bag ]};
                          app_status := UnknownStatus;
                          relation_writes := [] |};
              unit := unit_a |} in
  ∃ s' password,
    _leader_elected s = Returns () s'
    ∧ String.length password = 16
    ∧ relations (model s')
        = <[PEER := <[PEER_PASSWORD_KEY := password]> bag]> (relations (model s))
    ∧ log (unit s') = log (unit s) ++ [(INFO, "REDIS PASSWORD: " +:+ password)]
    ∧ app_status (model s') = app_status (model s)
    ∧ status (unit s') = status (unit s)
    ∧ workload_version (unit s') = workload_version (unit s)
    ∧ action_results (unit s') = action_results (unit s).
Proof.
  intros bag s. apply (leader_elected_provisioning_effect s bag).
  - vm_compute. reflexivity.
  - reflexivity.
  - reflexivity.
Defined.

(** X18. When the peer databag has no password under the password key (or
    an empty one) and the unit is not the leader, [_leader_elected] does
    not provision: the write to the application databag is refused with
    [RelationDataAccessError], which leaves the handler; nothing is stored
    and nothing is logged, and the model, the unit status, the workload
    version and the action results are as before. *)
Theorem leader_elected_refused (s : State) (bag : gmap string string) :
  relations (model s) !! PEER = Some bag →
  truthy (default "" (bag !! PEER_PASSWORD_KEY)) = false →
  is_leader (unit s) = false →
  ∃ s',
    _leader_elected s = Raises RelationDataAccessError s'
    ∧ model s' = model s
    ∧ log (unit s') = log (unit s)
    ∧ status (unit s') = status (unit s)
    ∧ workload_version (unit s') = workload_version (unit s)
    ∧ action_results (unit s') = action_results (unit s).
Proof.
  intros Hbag Ht Hl. rewrite leader_elected_eq, Hbag, Ht, Hl.
  eexists. split; [reflexivity|]. done.
Qed.

Lemma leader_elected_refused_witness :
  let bag : gmap string string := ∅ in
  let s := {| model := peers_joined; unit := unit_b |} in
  ∃ s',
    _leader_elected s = Raises RelationDataAccessError s'
    ∧ model s' = model s
    ∧ log (unit s') = log (unit s)
    ∧ status (unit s') = status (unit s)
    ∧ workload_version (unit s') = workload_version (unit s)
    ∧ action_results (unit s') = action_results (unit s).
Proof.
  intros bag s. apply (leader_elected_refused s bag).
  - vm_compute. reflexivity.
  - reflexivity.
  - reflexivity.
Defined.
